(** * Qwik City: the azure-swa deployment adapter and the routing core

    Part I embeds [packages/qwik-city/adapters/azure-swa/vite/index.ts]:
    the [generate] hook of the adapter, together with the pieces of the
    JavaScript run time it calls ([String.prototype.indexOf],
    [Array.prototype.find], [JSON.stringify] and the two [fs.promises]
    operations).

    Part II is the routing core (manifest compiler, path matcher, handler
    pipeline, layout composition).  Its code is not part of the sources at
    hand; it is modelled from the specification and from the routing guide
    (Advanced Routing), and every definition there says so. *)

From Stdlib Require Import ZArith Ascii String List Lia Bool.
From stdpp Require Import gmap strings list fin_maps.
Import ListNotations.

Set Warnings "-register-all".
Local Open Scope string_scope.
Local Open Scope list_scope.
Local Open Scope Z_scope.

(* ===================================================================== *)
(** ** JavaScript strings *)
(* ===================================================================== *)

Module Js.

(** Strings are sequences of code units; the entry names and paths handled
    by the adapter are file names, modelled with [string] (code units below
    256). *)

(** [s.indexOf(pat)]: the smallest index at which [pat] occurs in [s], or
    [-1].  [indexOf_from k] is the search in the suffix that starts at
    index [k] of the original string. *)
Fixpoint indexOf_from (k : Z) (s pat : string) : Z :=
  if String.prefix pat s then k
  else match s with
       | EmptyString => -1
       | String _ rest => indexOf_from (k + 1) rest pat
       end.

Definition indexOf (s pat : string) : Z := indexOf_from 0 s pat.

(** [xs.find(p)]: the first element that satisfies [p], or [undefined]. *)
Fixpoint find {A : Type} (p : A -> bool) (xs : list A) : option A :=
  match xs with
  | [] => None
  | x :: rest => if p x then Some x else find p rest
  end.

(** [a || b] on an optional string: [undefined] and the empty string are
    falsy. *)
Definition or_else (a : option string) (b : string) : string :=
  match a with
  | Some s => if String.eqb s "" then b else s
  | None => b
  end.

End Js.

(* ===================================================================== *)
(** ** JSON.stringify *)
(* ===================================================================== *)

Module Json.

(** The JavaScript values the adapter serialises. *)
Inductive value : Type :=
| Undefined
| Str (s : string)
| Arr (elems : list value)
| Obj (props : list (string * value)).

Definition quote_char : ascii := "034"%char.
Definition backslash : ascii := "\"%char.
Definition newline : string := String "010"%char EmptyString.

Definition hex_digit (n : N) : ascii :=
  ascii_of_N (if (n <? 10)%N then 48 + n else 87 + n)%N.

(** One code unit of QuoteJSONString. *)
Definition quote_unit (c : ascii) : string :=
  let n := N_of_ascii c in
  if (n =? 8)%N then String backslash "b"
  else if (n =? 9)%N then String backslash "t"
  else if (n =? 10)%N then String backslash "n"
  else if (n =? 12)%N then String backslash "f"
  else if (n =? 13)%N then String backslash "r"
  else if (n =? 34)%N then String backslash (String quote_char EmptyString)
  else if (n =? 92)%N then String backslash (String backslash EmptyString)
  else if (n <? 32)%N then
    String backslash
      ("u00" +:+ String (hex_digit (n / 16)) (String (hex_digit (n mod 16)) EmptyString))
  else String c EmptyString.

Fixpoint quote_units (s : string) : string :=
  match s with
  | EmptyString => EmptyString
  | String c rest => quote_unit c +:+ quote_units rest
  end.

Definition QuoteJSONString (s : string) : string :=
  String quote_char (quote_units s +:+ String quote_char EmptyString).

Fixpoint join (sep : string) (parts : list string) : string :=
  match parts with
  | [] => ""
  | [p] => p
  | p :: rest => p +:+ sep +:+ join sep rest
  end.

(** SerializeJSONProperty with a non-empty [gap]; [indent] is the current
    indentation.  [None] is JavaScript's [undefined]: an object drops the
    property, an array writes [null]. *)
Fixpoint SerializeJSONProperty (gap indent : string) (v : value) : option string :=
  match v with
  | Undefined => None
  | Str s => Some (QuoteJSONString s)
  | Arr elems =>
      let stepback := indent in
      let indent := indent +:+ gap in
      let partial :=
        (fix go (xs : list value) : list string :=
           match xs with
           | [] => []
           | x :: rest =>
               match SerializeJSONProperty gap indent x with
               | Some strP => strP
               | None => "null"
               end :: go rest
           end) elems in
      Some match partial with
           | [] => "[]"
           | _ => "[" +:+ newline +:+ indent
                  +:+ join ("," +:+ newline +:+ indent) partial
                  +:+ newline +:+ stepback +:+ "]"
           end
  | Obj props =>
      let stepback := indent in
      let indent := indent +:+ gap in
      let partial :=
        (fix go (ps : list (string * value)) : list string :=
           match ps with
           | [] => []
           | (k, x) :: rest =>
               match SerializeJSONProperty gap indent x with
               | Some strP => (QuoteJSONString k +:+ ": " +:+ strP) :: go rest
               | None => go rest
               end
           end) props in
      Some match partial with
           | [] => "{}"
           | _ => "{" +:+ newline +:+ indent
                  +:+ join ("," +:+ newline +:+ indent) partial
                  +:+ newline +:+ stepback +:+ "}"
           end
  end.

(** [JSON.stringify(v, null, n)] for a space count [n] between 1 and 10. *)
Definition spaces (n : nat) : string := string_of_list_ascii (repeat " "%char n).

Definition stringify (v : value) (space : nat) : option string :=
  SerializeJSONProperty (spaces space) "" v.

End Json.

(* ===================================================================== *)
(** ** The Node.js environment: file system, heap, exceptions *)
(* ===================================================================== *)

Module Node.

(** Exceptions a rejected promise carries. *)
Inductive error : Type :=
| TypeError (code : string)
| ErrnoException (code : string).

(** The file system: regular files with their contents, and directories,
    both keyed by path. *)
Record FS : Type := mkFS {
  files : gmap string string;
  dirs : gset string
}.

(** A reference to an array object of the JavaScript heap. *)
Definition ref : Type := nat.

(** A path that holds a NUL code unit; the [fs] functions refuse it before
    they reach the file system. *)
Fixpoint has_nul (p : string) : bool :=
  match p with
  | EmptyString => false
  | String c rest => (N_of_ascii c =? 0)%N || has_nul rest
  end.

Section World.

(** The route-matching state of the running build (the compiled manifest);
    the adapter is generic in it. *)
Variable RouteState : Type.

(** [join] of [node:path], on strings.  It is platform dependent (posix or
    win32) and taken as a parameter. *)
Variable join : string -> string -> string.

(** The proper ancestors of a path, outermost first: the directories
    [path.dirname] walks through.  Like [join] they follow the platform's
    path rules and are taken as a parameter; [posix_ancestors] below is
    the posix instance. *)
Variable ancestors : string -> list string.

Record World : Type := mkWorld {
  fs : FS;
  arrays : ref -> list string;
  routes : RouteState
}.

(** Asynchronous code run to completion: a computation either fulfils with
    a value or rejects with an error; the world it leaves is kept in both
    cases (writes made before a rejection stay made). *)
Definition M (A : Type) : Type := World -> (error + A) * World.

Definition ret {A} (a : A) : M A := fun w => (inr a, w).

Definition throw {A} (e : error) : M A := fun w => (inl e, w).

Definition bind {A B} (m : M A) (k : A -> M B) : M B :=
  fun w => match m w with
           | (inl e, w') => (inl e, w')
           | (inr a, w') => k a w'
           end.

Definition with_fs (f : FS -> error + FS) : M unit :=
  fun w => match f (fs w) with
           | inl e => (inl e, w)
           | inr fs' => (inr tt, mkWorld fs' (arrays w) (routes w))
           end.

(** [path.join(a, b)]: a non-string argument is a [TypeError]. *)
Definition path_join (a : option string) (b : string) : M string :=
  match a with
  | Some a => ret (join a b)
  | None => throw (TypeError "ERR_INVALID_ARG_TYPE")
  end.

(** The directories [mkdir] with [recursive: true] makes sure of: the
    path itself and every ancestor of it. *)
Definition made (p : string) : gset string :=
  {[ p ]} ∪ list_to_set (ancestors p).

Definition is_file (s : FS) (p : string) : bool :=
  match files s !! p with
  | Some _ => true
  | None => false
  end.

(** [mkdir(p, { recursive: true })] on the file system.  It creates the
    missing ancestors and the directory, and succeeds when they exist
    already.  It refuses a path that is a regular file ([EEXIST]), a path
    that holds NUL (a [TypeError], raised before the file system is
    reached), the empty path ([ENOENT]) and a path below a regular file
    ([ENOTDIR]).  In a file system these refusals exclude one another (no
    file is named by the empty path or by a path with NUL, and nothing
    lies below a regular file), so the order of the tests is not
    observable; a refused call changes nothing. *)
Definition mkdirp (p : string) (s : FS) : error + FS :=
  if is_file s p then inl (ErrnoException "EEXIST")
  else if has_nul p then inl (TypeError "ERR_INVALID_ARG_VALUE")
  else if String.eqb p "" then inl (ErrnoException "ENOENT")
  else if existsb (is_file s) (ancestors p) then inl (ErrnoException "ENOTDIR")
  else inr (mkFS (files s) (made p ∪ dirs s)).

(** [fs.promises.mkdir(path, { recursive: true })]; a path that is not a
    string is a [TypeError]. *)
Definition mkdir_recursive (path : option string) : M unit :=
  match path with
  | None => throw (TypeError "ERR_INVALID_ARG_TYPE")
  | Some p => with_fs (mkdirp p)
  end.

(** The file systems in which [mkdir(p, { recursive: true })] succeeds. *)
Definition mkdir_accepts (s : FS) (p : string) : Prop :=
  (files s !! p) = None
  /\ has_nul p = false
  /\ p <> ""
  /\ (forall a, In a (ancestors p) -> (files s !! a) = None).

(** [fs.promises.writeFile(path, data)]: creates or replaces the file;
    fails on a directory, and on data that is not a string. *)
Definition writeFile (path : string) (data : option string) : M unit :=
  match data with
  | None => throw (TypeError "ERR_INVALID_ARG_TYPE")
  | Some d =>
      with_fs (fun s =>
        if decide (path ∈ dirs s) then inl (ErrnoException "EISDIR")
        else inr (mkFS (<[ path := d ]> (files s)) (dirs s)))
  end.

(** Reading the elements of an array object. *)
Definition read_array (r : ref) : M (list string) :=
  fun w => (inr (arrays w r), w).

End World.

Arguments fs {RouteState} _.
Arguments arrays {RouteState} _.
Arguments routes {RouteState} _.
Arguments mkWorld {RouteState} _ _ _.
Arguments ret {RouteState A} _.
Arguments throw {RouteState A} _.
Arguments bind {RouteState A B} _ _.
Arguments path_join {RouteState} _ _ _.
Arguments mkdir_recursive {RouteState} _ _.
Arguments writeFile {RouteState} _ _.
Arguments read_array {RouteState} _.

(** The part of a path read so far is an ancestor when a separator ends a
    segment of it and another segment follows. *)
Fixpoint has_segment (p : string) : bool :=
  match p with
  | EmptyString => false
  | String c rest => negb (Ascii.eqb c "/"%char) || has_segment rest
  end.

Fixpoint ends_with_separator (p : string) : bool :=
  match p with
  | EmptyString => false
  | String c EmptyString => Ascii.eqb c "/"%char
  | String _ rest => ends_with_separator rest
  end.

Fixpoint ancestors_from (seen rest : string) : list string :=
  match rest with
  | EmptyString => []
  | String c rest' =>
      if Ascii.eqb c "/"%char then
        (if has_segment rest' then
           match seen with
           | EmptyString => ["/"]
           | _ => if ends_with_separator seen then [] else [seen]
           end
         else [])
        ++ ancestors_from (seen +:+ "/") rest'
      else ancestors_from (seen +:+ String c EmptyString) rest'
  end.

(** The ancestors of a posix path without [.] and [..] segments, outermost
    first: [a] and [a/b] for [a/b/c], the root and [/a] for [/a/b], none
    for a single segment. *)
Definition posix_ancestors (p : string) : list string := ancestors_from "" p.

End Node.

Notation "'bound' x <- c ; k" := (Node.bind c (fun x => k))
  (at level 10, x name, c at level 100, k at level 200).
Notation "'run' c ; k" := (Node.bind c (fun _ => k))
  (at level 10, c at level 100, k at level 200).

(* ===================================================================== *)
(** ** adapters/azure-swa/vite/index.ts *)
(* ===================================================================== *)

Module AzureSwa.

Import Node.

Definition dq : string := String Json.quote_char EmptyString.

Section Adapter.

Variable RouteState : Type.
Variable join : string -> string -> string.
Variable ancestors : string -> list string.

(** The two fields of the generate options the hook destructures.
    [serverOutDir] may be unset; the hook asserts it is not
    ([serverOutDir!]). *)
Record GenerateOpts : Type := mkGenerateOpts {
  outputEntries : ref;
  serverOutDir : option string
}.

Definition methods : list string :=
  ["get"; "head"; "post"; "put"; "delete"; "connect"; "options"; "trace"; "patch"].

Definition bindings : Json.value :=
  Json.Arr
    [ Json.Obj
        [ ("authLevel", Json.Str "anonymous");
          ("type", Json.Str "httpTrigger");
          ("direction", Json.Str "in");
          ("name", Json.Str "req");
          ("methods", Json.Arr (List.map Json.Str methods)) ];
      Json.Obj
        [ ("type", Json.Str "http");
          ("direction", Json.Str "out");
          ("name", Json.Str "response") ] ].

(** The object literal handed to [JSON.stringify]. *)
Definition funcJsonObject (azureSwaModulePath : option string) : Json.value :=
  Json.Obj
    [ ("bindings", bindings);
      ("scriptFile",
       match azureSwaModulePath with
       | Some p => Json.Str p
       | None => Json.Undefined
       end) ].

Definition is_azure_swa_entry (entryName : string) : bool :=
  Js.indexOf entryName "entry.azure-swa" =? 0.

Definition serverPackageJsonCode : string :=
  "{" +:+ dq +:+ "type" +:+ dq +:+ ":" +:+ dq +:+ "module" +:+ dq +:+ "}".

Definition generate (o : GenerateOpts) : M RouteState unit :=
  bound serverPackageJsonPath <- path_join join (serverOutDir o) "package.json";
  run mkdir_recursive ancestors (serverOutDir o);
  run writeFile serverPackageJsonPath (Some serverPackageJsonCode);
  bound entries <- read_array (outputEntries o);
  let azureSwaModulePath := Js.find is_azure_swa_entry entries in
  bound funcJsonPath <- path_join join (serverOutDir o) "function.json";
  let funcJson := Json.stringify (funcJsonObject azureSwaModulePath) 2 in
  writeFile funcJsonPath funcJson.

(** The text [JSON.stringify] gives for the trigger descriptor up to the
    value of [scriptFile], and after it. *)
Definition funcJson_head : string :=
  Eval vm_compute in
    match Json.stringify (funcJsonObject (Some "")) 2 with
    | Some text => String.substring 0 (String.length text - 4) text
    | None => ""
    end.

Definition funcJson_tail : string := Json.newline +:+ "}".

(** The state of the file system in which the three operations of
    [generate] on directory [dir] succeed: [mkdir] accepts [dir] (it is no
    regular file, holds no NUL, is not empty and lies below no regular
    file), and neither packaging path is a directory, [dir] or an
    ancestor of [dir]. *)
Definition accepts (s : FS) (dir : string) : Prop :=
  mkdir_accepts ancestors s dir
  /\ (join dir "package.json" ∉ made ancestors dir ∪ dirs s)
  /\ (join dir "function.json" ∉ made ancestors dir ∪ dirs s).

(** [ServerAdapterOptions] and [viteAdapter] come from [../../shared/vite];
    the option values and the plugin are opaque here. *)
Variable StaticGenerate Ssg Plugin : Type.

Record AzureSwaAdapterOptions : Type := mkOptions {
  staticGenerate : option StaticGenerate;
  ssg : option Ssg
}.

Record ViteAdapterPluginOptions : Type := mkPluginOptions {
  pname : string;
  origin : string;
  pstaticGenerate : option StaticGenerate;
  pssg : option Ssg;
  cleanStaticGenerated : bool;
  pgenerate : GenerateOpts -> M RouteState unit
}.

Variable viteAdapter : ViteAdapterPluginOptions -> Plugin.

(** [env_URL] is [process?.env?.URL]; [opts] is the optional argument,
    [{}] when omitted. *)
Definition azureSwaAdapter (env_URL : option string)
    (opts : option AzureSwaAdapterOptions) : Plugin :=
  let opts := match opts with Some o => o | None => mkOptions None None end in
  viteAdapter
    {| pname := "azure-swa";
       origin := Js.or_else env_URL "https://yoursitename.region.2.azurestaticapps.net";
       pstaticGenerate := staticGenerate opts;
       pssg := ssg opts;
       cleanStaticGenerated := true;
       pgenerate := generate |}.

Definition azureSwaAdaptor := azureSwaAdapter.

End Adapter.

(** [path.posix.join] of a directory path and a file name where there is
    nothing to normalise (no empty, [.] or [..] segment, no doubled or
    trailing separator): the sample instance of [join] for the examples. *)
Definition plain_join (a b : string) : string := a +:+ "/" +:+ b.

(** A build whose generate options refer to the array [entries], in an
    empty file system. *)
Definition sample_world (entries : list string) : World unit :=
  mkWorld (mkFS ∅ ∅) (fun _ => entries) tt.

End AzureSwa.

(* ===================================================================== *)
(** ** The routing core *)
(* ===================================================================== *)

Module Routing.

(** *** Data model *)

(** Modelled from the spec: the kinds of a SegmentNode (section 3); the
    Segment Tree Builder that parses names into nodes is missing, the tree
    is its output. *)
Inductive SegmentKind : Type :=
| Static | DynamicParam | RestParam | PathlessGroup | Index.

(** Modelled from the spec: LayoutNode (section 3), name and body; the
    chain of its ancestors is what the compiler records on a RouteEntry. *)
Record LayoutNode : Type := mkLayout {
  layoutName : string;
  bodyRef : string
}.

(** Modelled from the spec: SegmentNode (section 3).  [urlToken] is the
    literal token of a static node and the identifier of a dynamic or rest
    parameter; [layoutRefs] maps layout names to layouts, the default one
    under the empty name; [layoutSelector] is the at-suffix of a leaf. *)
Inductive SegmentNode : Type := mkNode {
  kind : SegmentKind;
  rawName : string;
  urlToken : string;
  children : list SegmentNode;
  handlerRef : option string;
  layoutRefs : list (string * LayoutNode);
  layoutSelector : option string
}.

(** Modelled from the spec: the matchers of a pattern (section 3). *)
Inductive Matcher : Type :=
| Literal (token : string)
| Param (name : string)
| Rest (name : string).

(** Modelled from the spec: RouteEntry (section 3). *)
Record RouteEntry : Type := mkEntry {
  pattern : list Matcher;
  paramNames : list string;
  entryHandler : string;
  layoutChain : list LayoutNode
}.

(** Modelled from the spec: CompiledManifest (section 3), the ordered
    route entries and the layout registry. *)
Record CompiledManifest : Type := mkManifest {
  routeEntries : list RouteEntry;
  layoutRegistry : list LayoutNode
}.

(** Modelled from the spec: the build-time errors the compiler itself
    detects (sections 4.2 and 7); DuplicateRouteError and
    AmbiguousRestParamError belong to the missing builder. *)
Inductive CompileError : Type :=
| UnresolvedLayoutError (name : string)
| ConflictingPatternError.

Definition bind_err {E A B} (m : E + A) (k : A -> E + B) : E + B :=
  match m with
  | inl e => inl e
  | inr a => k a
  end.

(** *** Manifest Compiler *)

Fixpoint assoc {V} (k : string) (kvs : list (string * V)) : option V :=
  match kvs with
  | [] => None
  | (k', v) :: rest => if String.eqb k k' then Some v else assoc k rest
  end.

Definition default_layout (level : list (string * LayoutNode)) : list LayoutNode :=
  match assoc "" level with
  | Some l => [l]
  | None => []
  end.

(** Modelled from the spec: the default chain of section 4.2, each
    directory's default layout in root-to-leaf order. *)
Definition default_chain (levels : list (list (string * LayoutNode))) : list LayoutNode :=
  flat_map default_layout levels.

(** Modelled from the spec: the lookup of a requested layout name through
    the directories of the leaf's ancestor chain (section 4.1), the leaf's
    own directory first (section 4.2): the levels above the directory
    found, its layout of that name, and the levels below it. *)
Fixpoint nearest_declaring (name : string) (levels : list (list (string * LayoutNode)))
    : option (list (list (string * LayoutNode)) * LayoutNode
              * list (list (string * LayoutNode))) :=
  match levels with
  | [] => None
  | level :: below =>
      match nearest_declaring name below with
      | Some (above, l, below') => Some (level :: above, l, below')
      | None =>
          match assoc name level with
          | Some l => Some ([], l, below)
          | None => None
          end
      end
  end.

Definition declares (name : string) (level : list (string * LayoutNode)) : bool :=
  match assoc name level with
  | Some _ => true
  | None => false
  end.

Definition declares_nothing (level : list (string * LayoutNode)) : bool :=
  match level with
  | [] => true
  | _ :: _ => false
  end.

(** Modelled from the spec: the arrangements in which the chain of a
    named layout is settled: the leaf's own directory declares the name
    (section 4.2), or a single ancestor declares it and the directories
    between that ancestor and the leaf declare no layout at all (the Named
    Layout example of the routing guide, where [layout-narrow.tsx] lies in
    the parent of [contact]). *)
Definition settled (name : string)
    (above below : list (list (string * LayoutNode))) : bool :=
  match below with
  | [] => true
  | _ :: _ => forallb declares_nothing below && negb (existsb (declares name) above)
  end.

Section Compiler.

(** Modelled from the spec: the chain of a named layout in every other
    arrangement (the name declared by an ancestor with layouts declared in
    between, or by several ancestors).  Neither section 4.2 nor the guide
    settles it: it is a policy of the compiler (section 9 asks to keep an
    open rule configurable rather than a hidden default) and a parameter
    here. *)
Variable override_policy :
  string -> list (list (string * LayoutNode)) -> CompileError + list LayoutNode.

(** Modelled from the spec: the named-layout override of section 4.2: the
    directory that declares the requested layout contributes it in place
    of its default, the directories above it their defaults.  No directory
    of the ancestor chain declaring the name is UnresolvedLayoutError
    (section 4.1). *)
Definition named_chain (name : string) (levels : list (list (string * LayoutNode)))
    : CompileError + list LayoutNode :=
  match nearest_declaring name levels with
  | None => inl (UnresolvedLayoutError name)
  | Some (above, l, below) =>
      if settled name above below
      then inr (default_chain above ++ [l])
      else override_policy name levels
  end.

(** Modelled from the spec: layout chain resolution (section 4.2). *)
Definition resolve_chain (levels : list (list (string * LayoutNode)))
    (selector : option string) : CompileError + list LayoutNode :=
  match selector with
  | None => inr (default_chain levels)
  | Some name => named_chain name levels
  end.

(** Modelled from the spec: what a node adds to the pattern of the routes
    below it; pathless groups and index leaves add no token (sections 3
    and 4.1). *)
Definition extend_pattern (n : SegmentNode) (pat : list Matcher) : list Matcher :=
  match kind n with
  | Static => pat ++ [Literal (urlToken n)]
  | DynamicParam => pat ++ [Param (urlToken n)]
  | RestParam => pat ++ [Rest (urlToken n)]
  | PathlessGroup | Index => pat
  end.

(** A directory is one level of the layout chain; an index leaf is none. *)
Definition own_level (n : SegmentNode) : list (list (string * LayoutNode)) :=
  match kind n with
  | Index => []
  | _ => [layoutRefs n]
  end.

Fixpoint param_names (pat : list Matcher) : list string :=
  match pat with
  | [] => []
  | Literal _ :: rest => param_names rest
  | Param x :: rest => x :: param_names rest
  | Rest x :: rest => x :: param_names rest
  end.

(** Modelled from the spec: the depth-first walk of section 4.2, emitting
    one RouteEntry per node that carries a handler, in declaration order. *)
Fixpoint walk (pat : list Matcher) (levels : list (list (string * LayoutNode)))
    (n : SegmentNode) : CompileError + list RouteEntry :=
  let pat' := extend_pattern n pat in
  let levels' := levels ++ own_level n in
  bind_err
    match handlerRef n with
    | None => inr []
    | Some h =>
        bind_err (resolve_chain levels' (layoutSelector n)) (fun chain =>
        inr [mkEntry pat' (param_names pat') h chain])
    end (fun own =>
  bind_err
    ((fix walk_all (cs : list SegmentNode) : CompileError + list RouteEntry :=
        match cs with
        | [] => inr []
        | c :: cs' =>
            bind_err (walk pat' levels' c) (fun here =>
            bind_err (walk_all cs') (fun there => inr (here ++ there)))
        end) (children n)) (fun below =>
  inr (own ++ below))).

(** The walk over the children of a node, as [walk] runs it. *)
Definition walk_children (pat : list Matcher)
    (levels : list (list (string * LayoutNode)))
    : list SegmentNode -> CompileError + list RouteEntry :=
  fix walk_all (cs : list SegmentNode) : CompileError + list RouteEntry :=
    match cs with
    | [] => inr []
    | c :: cs' =>
        bind_err (walk pat levels c) (fun here =>
        bind_err (walk_all cs') (fun there => inr (here ++ there)))
    end.

(** [leaf_at n levels leaf h]: the node [leaf] lies in the subtree of [n]
    and carries the handler [h]; [levels] are the directory levels from
    [n] down to the directory of [leaf], outermost first. *)
Inductive leaf_at : SegmentNode -> list (list (string * LayoutNode))
                    -> SegmentNode -> string -> Prop :=
| leaf_here (n : SegmentNode) (h : string) :
    handlerRef n = Some h -> leaf_at n (own_level n) n h
| leaf_below (n c : SegmentNode) (levels : list (list (string * LayoutNode)))
    (leaf : SegmentNode) (h : string) :
    In c (children n) -> leaf_at c levels leaf h ->
    leaf_at n (own_level n ++ levels) leaf h.

(** Modelled from the spec: the layout registry, every declared layout in
    walk order. *)
Fixpoint collect_layouts (n : SegmentNode) : list LayoutNode :=
  List.map snd (layoutRefs n) ++ flat_map collect_layouts (children n).

(** Modelled from the spec: pattern normalization for conflict detection
    (section 4.2); two patterns conflict when they differ in parameter
    names only. *)
Definition normalize_matcher (m : Matcher) : Matcher :=
  match m with
  | Literal t => Literal t
  | Param _ => Param ""
  | Rest _ => Rest ""
  end.

Definition normalize_pattern (pat : list Matcher) : list Matcher :=
  List.map normalize_matcher pat.

Definition matcher_eqb (a b : Matcher) : bool :=
  match a, b with
  | Literal s, Literal t => String.eqb s t
  | Param s, Param t => String.eqb s t
  | Rest s, Rest t => String.eqb s t
  | _, _ => false
  end.

Fixpoint pattern_eqb (p q : list Matcher) : bool :=
  match p, q with
  | [], [] => true
  | a :: p', b :: q' => matcher_eqb a b && pattern_eqb p' q'
  | _, _ => false
  end.

Fixpoint has_conflict (pats : list (list Matcher)) : bool :=
  match pats with
  | [] => false
  | p :: rest => existsb (pattern_eqb p) rest || has_conflict rest
  end.

Definition is_param (m : Matcher) : bool :=
  match m with Param _ => true | _ => false end.

Definition is_rest (m : Matcher) : bool :=
  match m with Rest _ => true | _ => false end.

(** Modelled from the spec: the three specificity classes of section 4.2:
    static-only, with dynamic params, with a rest param. *)
Definition rank (pat : list Matcher) : nat :=
  if existsb is_rest pat then 2%nat
  else if existsb is_param pat then 1%nat
  else 0%nat.

Definition of_rank (r : nat) (e : RouteEntry) : bool :=
  Nat.eqb (rank (pattern e)) r.

(** Modelled from the spec: specificity ranking, ties left in declaration
    order (section 4.2). *)
Definition rank_sort (es : list RouteEntry) : list RouteEntry :=
  List.filter (of_rank 0) es ++ List.filter (of_rank 1) es ++ List.filter (of_rank 2) es.

(** Modelled from the spec: the Manifest Compiler (section 4.2). *)
Definition compile (root : SegmentNode) : CompileError + CompiledManifest :=
  bind_err (walk [] [] root) (fun es =>
  if has_conflict (List.map (fun e => normalize_pattern (pattern e)) es)
  then inl ConflictingPatternError
  else inr (mkManifest (rank_sort es) (collect_layouts root))).

End Compiler.

(** *** Path Matcher *)

(** What a parameter is bound to: one segment, or the sequence a rest
    parameter captures. *)
Inductive Binding : Type :=
| One (segment : string)
| Many (segments : list string).

Definition bind_param (x : string) (b : Binding)
    (r : option (list (string * Binding))) : option (list (string * Binding)) :=
  match r with
  | Some bs => Some ((x, b) :: bs)
  | None => None
  end.

(** Modelled from the spec: the segment-by-segment match of section 4.3.
    A literal needs token equality, a param consumes one segment, a rest
    consumes every remaining segment (possibly none); the match succeeds
    when path and pattern are both used up. *)
Fixpoint match_pattern (pat : list Matcher) (path : list string)
    : option (list (string * Binding)) :=
  match pat with
  | [] =>
      match path with
      | [] => Some []
      | _ :: _ => None
      end
  | Literal t :: pat' =>
      match path with
      | s :: path' => if String.eqb t s then match_pattern pat' path' else None
      | [] => None
      end
  | Param x :: pat' =>
      match path with
      | s :: path' => bind_param x (One s) (match_pattern pat' path')
      | [] => None
      end
  | Rest x :: pat' => bind_param x (Many path) (match_pattern pat' [])
  end.

Inductive MatchError : Type := RouteNotFoundError.

(** Modelled from the spec: the linear scan of the ranked entries; the
    first entry that matches wins (section 4.3). *)
Fixpoint scan (es : list RouteEntry) (path : list string)
    : MatchError + RouteEntry * list (string * Binding) :=
  match es with
  | [] => inl RouteNotFoundError
  | e :: rest =>
      match match_pattern (pattern e) path with
      | Some params => inr (e, params)
      | None => scan rest path
      end
  end.

Definition match_route (m : CompiledManifest) (path : list string)
    : MatchError + RouteEntry * list (string * Binding) :=
  scan (routeEntries m) path.

(** Modelled from the spec: the path separator and the text of a segment
    sequence. *)
Definition separator : string := "/".

Definition join_segments (segs : list string) : string := Json.join separator segs.

(** The literal path of a pattern: its literal tokens, in order. *)
Fixpoint literal_path (pat : list Matcher) : list string :=
  match pat with
  | [] => []
  | Literal t :: rest => t :: literal_path rest
  | _ :: rest => literal_path rest
  end.

(** *** Handler Execution Pipeline and Layout Composition Engine *)

Section Pipeline.

(** The payload type of the application and the external data source are
    opaque. *)
Variable Data Source : Type.

(** Modelled from the spec: the data of a HandlerResult, present or the
    explicit absent value (sections 3 and 9). *)
Inductive Payload : Type :=
| Present (d : Data)
| Absent.

(** Modelled from the spec: HandlerResult (section 3). *)
Record HandlerResult : Type := mkResult {
  statusCode : Z;
  redirectTarget : option string;
  headers : list (string * string);
  data : Payload;
  errorKind : option string
}.

(** Modelled from the spec: the execution context of section 4.4. *)
Record ExecutionContext : Type := mkContext {
  params : list (string * Binding);
  source : Source
}.

(** How a handler run ends: it returns a payload or raises a fault. *)
Inductive Completion : Type :=
| Returned (d : Payload)
| Raised (kind : string).

(** Modelled from the spec: what a handler did to the mutable response
    descriptor (status code, headers, redirect target; unset fields are
    [None]) and how it completed (section 4.4). *)
Record HandlerRun : Type := mkRun {
  setStatus : option Z;
  setHeaders : list (string * string);
  setRedirect : option string;
  completion : Completion
}.

Definition Handler : Type := ExecutionContext -> HandlerRun.

(** Modelled from the spec: the method-keyed handlers of a route and the
    method-agnostic fallback (sections 4.4 and 6). *)
Record HandlerSet : Type := mkHandlers {
  byMethod : list (string * Handler);
  anyMethod : option Handler
}.

Definition locate (method : string) (hs : HandlerSet) : option Handler :=
  match assoc method (byMethod hs) with
  | Some h => Some h
  | None => anyMethod hs
  end.

(** Modelled from the spec: capturing a run as a HandlerResult (section
    4.4): status 200 unless set; a fault becomes [errorKind], with a
    server-error status unless the handler set one. *)
Definition capture (r : HandlerRun) : HandlerResult :=
  match completion r with
  | Returned d =>
      mkResult (default 200 (setStatus r)) (setRedirect r) (setHeaders r) d None
  | Raised k =>
      mkResult (default 500 (setStatus r)) (setRedirect r) (setHeaders r) Absent (Some k)
  end.

(** Modelled from the spec: the nested render contexts of section 4.5; a
    layout context wraps exactly one child, the leaf context alone holds
    the handler result. *)
Inductive RenderContext : Type :=
| LayoutContext (l : LayoutNode) (child : RenderContext)
| LeafContext (r : HandlerResult).

(** Modelled from the spec: composition, outermost layout first, ending in
    the leaf view (section 4.5). *)
Fixpoint compose (chain : list LayoutNode) (r : HandlerResult) : RenderContext :=
  match chain with
  | [] => LeafContext r
  | l :: inner => LayoutContext l (compose inner r)
  end.

Fixpoint frames (c : RenderContext) : list LayoutNode :=
  match c with
  | LayoutContext l child => l :: frames child
  | LeafContext _ => []
  end.

Fixpoint leaf (c : RenderContext) : HandlerResult :=
  match c with
  | LayoutContext _ child => leaf child
  | LeafContext r => r
  end.

(** What the pipeline does, in order. *)
Inductive Event : Type :=
| HandlerInvoked (h : string)
| RedirectFinalized (target : string)
| LayoutEntered (l : LayoutNode)
| LeafEntered (payload : Payload).

Definition is_composition (ev : Event) : bool :=
  match ev with
  | LayoutEntered _ | LeafEntered _ => true
  | _ => false
  end.

(** Modelled from the spec: the two outcomes of a request that reached a
    handler: a finalized redirect, which carries no payload, or the
    rendered context (sections 4.4 and 7). *)
Inductive Outcome : Type :=
| Redirected (target : string) (status : Z) (hdrs : list (string * string))
| Rendered (c : RenderContext).

Definition composition_events (chain : list LayoutNode) (r : HandlerResult) : list Event :=
  List.map LayoutEntered chain ++ [LeafEntered (data r)].

(** Modelled from the spec: the Handler Execution Pipeline (section 4.4).
    A redirect target finalizes the response at once and composition is
    skipped; every other result, whatever its status, goes to the Layout
    Composition Engine.  [None]: the route declares no handler for the
    method. *)
Definition execute (registry : string -> HandlerSet) (e : RouteEntry)
    (method : string) (ctx : ExecutionContext) : option (list Event * Outcome) :=
  match locate method (registry (entryHandler e)) with
  | None => None
  | Some h =>
      let r := capture (h ctx) in
      Some match redirectTarget r with
           | Some target =>
               ([HandlerInvoked (entryHandler e); RedirectFinalized target],
                Redirected target (statusCode r) (headers r))
           | None =>
               (HandlerInvoked (entryHandler e) :: composition_events (layoutChain e) r,
                Rendered (compose (layoutChain e) r))
           end
  end.

(** Modelled from the spec: a request from path to outcome, matcher first
    (sections 4.3 to 4.5). *)
Definition handle (m : CompiledManifest) (registry : string -> HandlerSet)
    (method : string) (path : list string) (src : Source)
    : MatchError + option (list Event * Outcome) :=
  match match_route m path with
  | inl err => inl err
  | inr (e, ps) => inr (execute registry e method (mkContext ps src))
  end.

End Pipeline.

Arguments Present {Data} _.
Arguments Absent {Data}.
Arguments mkResult {Data} _ _ _ _ _.
Arguments statusCode {Data} _.
Arguments redirectTarget {Data} _.
Arguments headers {Data} _.
Arguments data {Data} _.
Arguments errorKind {Data} _.
Arguments mkContext {Source} _ _.
Arguments Returned {Data} _.
Arguments Raised {Data} _.
Arguments mkRun {Data} _ _ _ _.
Arguments setStatus {Data} _.
Arguments setHeaders {Data} _.
Arguments setRedirect {Data} _.
Arguments completion {Data} _.
Arguments mkHandlers {Data Source} _ _.
Arguments locate {Data Source} _ _.
Arguments capture {Data} _.
Arguments LayoutContext {Data} _ _.
Arguments LeafContext {Data} _.
Arguments compose {Data} _ _.
Arguments frames {Data} _.
Arguments leaf {Data} _.
Arguments HandlerInvoked {Data} _.
Arguments RedirectFinalized {Data} _.
Arguments LayoutEntered {Data} _.
Arguments LeafEntered {Data} _.
Arguments is_composition {Data} _.
Arguments Redirected {Data} _ _ _.
Arguments Rendered {Data} _.
Arguments composition_events {Data} _ _.
Arguments execute {Data Source} _ _ _ _.
Arguments handle {Data Source} _ _ _ _ _.

(** *** The hierarchies of the routing guide *)

Definition index_leaf (raw handler : string) (selector : option string) : SegmentNode :=
  mkNode Index raw "" [] (Some handler) [] selector.

Definition layout_default : LayoutNode := mkLayout "" "src/routes/layout.tsx".

Definition layout_narrow : LayoutNode := mkLayout "narrow" "src/routes/layout-narrow.tsx".

(** The directory [src/routes/contact] of the Named Layout example: it
    holds [index@narrow.tsx] and declares no layout. *)
Definition contact_dir : SegmentNode :=
  mkNode Static "contact" "contact"
    [index_leaf "index@narrow" "src/routes/contact/index@narrow.tsx" (Some "narrow")]
    None [] None.

(** The Named Layout example of the guide: [src/routes] declares
    [layout.tsx] and [layout-narrow.tsx] and holds [index.tsx] and the
    directory [contact]. *)
Definition named_layout_routes : SegmentNode :=
  mkNode PathlessGroup "routes" ""
    [contact_dir; index_leaf "index" "src/routes/index.tsx" None]
    None [("", layout_default); ("narrow", layout_narrow)] None.

(** A variant of the Named Layout example in the arrangement of section
    4.2: the leaf's own directory declares the layout it requests. *)
Definition layout_contact : LayoutNode :=
  mkLayout "" "src/routes/contact/layout.tsx".

Definition layout_contact_narrow : LayoutNode :=
  mkLayout "narrow" "src/routes/contact/layout-narrow.tsx".

Definition own_named_layout_routes : SegmentNode :=
  mkNode PathlessGroup "routes" ""
    [ mkNode Static "contact" "contact"
        [index_leaf "index@narrow" "src/routes/contact/index@narrow.tsx" (Some "narrow")]
        None [("", layout_contact); ("narrow", layout_contact_narrow)] None ]
    None [("", layout_default)] None.

(** The Non-200 example of the guide, [product/[skuId]/index.tsx] under a
    root layout, next to a static sibling [product/new] and a rest route
    [docs/[...path]]. *)
Definition product_routes : SegmentNode :=
  mkNode PathlessGroup "routes" ""
    [ mkNode Static "docs" "docs"
        [mkNode RestParam "[...path]" "path"
           [index_leaf "index" "src/routes/docs/[...path]/index.tsx" None] None [] None]
        None [] None;
      mkNode Static "product" "product"
        [ mkNode DynamicParam "[skuId]" "skuId"
            [index_leaf "index" "src/routes/product/[skuId]/index.tsx" None] None [] None;
          mkNode Static "new" "new"
            [index_leaf "index" "src/routes/product/new/index.tsx" None] None [] None ]
        None [] None ]
    None [("", layout_default)] None.

(** The Grouped Layouts example of the guide: the directory [(account)]
    shares a layout between [profile] and [settings] and adds nothing to
    their paths. *)
Definition layout_account : LayoutNode :=
  mkLayout "" "src/routes/(account)/layout.tsx".

Definition account_routes : SegmentNode :=
  mkNode PathlessGroup "routes" ""
    [ mkNode PathlessGroup "(account)" ""
        [ mkNode Static "profile" "profile"
            [index_leaf "index" "src/routes/(account)/profile/index.tsx" None]
            None [] None;
          mkNode Static "settings" "settings"
            [index_leaf "index" "src/routes/(account)/settings/index.tsx" None]
            None [] None ]
        None [("", layout_account)] None ]
    None [] None.

(** The handler of the guide's 404 example when the product is unknown:
    status 404, the payload [null]. *)
Definition product_not_found : Handler string unit :=
  fun _ => mkRun (Some 404) [] None (Returned Absent).

(** A handler that redirects. *)
Definition moved_handler : Handler string unit :=
  fun _ => mkRun (Some 302) [("location", "/product/new")] (Some "/product/new")
             (Returned (Present "unused")).

Definition sample_registry (h : Handler string unit) : string -> HandlerSet string unit :=
  fun _ => mkHandlers [("GET", h)] None.

(** An instance of the override policy for the examples, none of which
    reaches it: it refuses the arrangements that are not settled. *)
Definition sample_policy (name : string) (levels : list (list (string * LayoutNode)))
    : CompileError + list LayoutNode :=
  inl (UnresolvedLayoutError name).

Definition manifest_of (root : SegmentNode) : CompiledManifest :=
  match compile sample_policy root with
  | inr m => m
  | inl _ => mkManifest [] []
  end.

Definition product_manifest : CompiledManifest :=
  Eval vm_compute in manifest_of product_routes.

Definition named_layout_manifest : CompiledManifest :=
  Eval vm_compute in manifest_of named_layout_routes.

Definition product_new_entry : RouteEntry :=
  mkEntry [Literal "product"; Literal "new"] []
    "src/routes/product/new/index.tsx" [layout_default].

Definition contact_entry : RouteEntry :=
  mkEntry [Literal "contact"] []
    "src/routes/contact/index@narrow.tsx" [layout_narrow].

Definition skuId_entry : RouteEntry :=
  mkEntry [Literal "product"; Param "skuId"] ["skuId"]
    "src/routes/product/[skuId]/index.tsx" [layout_default].

End Routing.

(* ===================================================================== *)
(** ** Reading a quoted JSON string back *)
(* ===================================================================== *)

Module JsonRead.

Import Json.

Definition unhex (c : ascii) : option N :=
  let n := N_of_ascii c in
  if ((48 <=? n) && (n <=? 57))%N then Some (n - 48)%N
  else if ((97 <=? n) && (n <=? 102))%N then Some (n - 87)%N
  else None.

(** The code unit a two-character escape stands for. *)
Definition unescape (c : ascii) : option ascii :=
  let n := N_of_ascii c in
  if (n =? 98)%N then Some "008"%char
  else if (n =? 116)%N then Some "009"%char
  else if (n =? 110)%N then Some "010"%char
  else if (n =? 102)%N then Some "012"%char
  else if (n =? 114)%N then Some "013"%char
  else if (n =? 34)%N then Some quote_char
  else if (n =? 92)%N then Some backslash
  else None.

Definition push (c : ascii) (r : option (string * string)) : option (string * string) :=
  match r with
  | Some (s, rest) => Some (String c s, rest)
  | None => None
  end.

(** The inverse of [quote_units]: the code units of a JSON string, read
    up to its closing quote, and the text after that quote.  It is the
    string rule of JSON.parse restricted to the escapes QuoteJSONString
    writes. *)
Fixpoint read_quoted (s : string) : option (string * string) :=
  match s with
  | EmptyString => None
  | String c rest =>
      if Ascii.eqb c quote_char then Some (EmptyString, rest)
      else if Ascii.eqb c backslash then
        match rest with
        | EmptyString => None
        | String d rest' =>
            if Ascii.eqb d "u"%char then
              match rest' with
              | String z1 (String z2 (String x (String y rest''))) =>
                  if Ascii.eqb z1 "0"%char && Ascii.eqb z2 "0"%char then
                    match unhex x, unhex y with
                    | Some hx, Some hy =>
                        push (ascii_of_N (16 * hx + hy)) (read_quoted rest'')
                    | _, _ => None
                    end
                  else None
              | _ => None
              end
            else
              match unescape d with
              | Some ch => push ch (read_quoted rest')
              | None => None
              end
        end
      else push c (read_quoted rest)
  end.

(** The code units JSON does not allow raw inside a string: those below
    the space, the line feed among them. *)
Definition control_unit (c : ascii) : bool := (N_of_ascii c <? 32)%N.

Definition no_control_unit (c : ascii) : bool := negb (control_unit c).

(** The number of line feeds of a text. *)
Fixpoint line_feeds (s : string) : nat :=
  match s with
  | EmptyString => 0%nat
  | String c rest =>
      ((if (N_of_ascii c =? 10)%N then 1 else 0) + line_feeds rest)%nat
  end.

Fixpoint all_units (p : ascii -> bool) (s : string) : bool :=
  match s with
  | EmptyString => true
  | String c rest => p c && all_units p rest
  end.

End JsonRead.

(* ===================================================================== *)
(** ** File systems that refuse an operation of the adapter *)
(* ===================================================================== *)

Module Refusals.

Import Node.


(** The path of the trigger descriptor is taken by a directory. *)
Definition descriptor_is_dir_world (entries : list string) : World unit :=
  mkWorld (mkFS ∅ {[ "server/function.json" ]}) (fun _ => entries) tt.

(** The parent of the output directory is a regular file. *)
Definition parent_is_file_world (entries : list string) : World unit :=
  mkWorld (mkFS {[ "server" := "stale" ]} ∅) (fun _ => entries) tt.

(** A path with a NUL code unit in it. *)
Definition nul_path : string := "ser" +:+ String "000"%char "ver".

End Refusals.

(* ===================================================================== *)
(** ** Properties of the run-time functions *)
(* ===================================================================== *)

Module JsFacts.

Import Js.

Lemma indexOf_from_range (s pat : string) :
  forall k, indexOf_from k s pat = -1 \/ k <= indexOf_from k s pat.
Proof.
  induction s as [| c rest IH]; intros k; cbn [indexOf_from].
  - destruct (String.prefix pat ""); [right | left]; lia.
  - destruct (String.prefix pat (String c rest)).
    + right; lia.
    + destruct (IH (k + 1)) as [H | H]; [left | right]; lia.
Qed.

(** [s.indexOf(pat) === 0] says exactly that [s] starts with [pat]. *)
Lemma indexOf_zero_prefix (s pat : string) :
  indexOf s pat = 0 <-> String.prefix pat s = true.
Proof.
  unfold indexOf. split.
  - destruct s as [| c rest]; cbn [indexOf_from].
    + destruct (String.prefix pat ""); [reflexivity | lia].
    + destruct (String.prefix pat (String c rest)); [reflexivity |].
      destruct (indexOf_from_range rest pat (0 + 1)); lia.
  - intros H. destruct s; cbn [indexOf_from]; rewrite H; reflexivity.
Qed.

Lemma find_some {A} (p : A -> bool) (xs : list A) (x : A) :
  find p xs = Some x -> In x xs /\ p x = true.
Proof.
  induction xs as [| y rest IH]; simpl; [discriminate |].
  destruct (p y) eqn:Hy.
  - intros [= ->]. auto.
  - intros H. destruct (IH H). auto.
Qed.

Lemma find_none {A} (p : A -> bool) (xs : list A) :
  find p xs = None <-> forall x, In x xs -> p x = false.
Proof.
  induction xs as [| y rest IH]; simpl.
  - split; [intros _ x [] | reflexivity].
  - destruct (p y) eqn:Hy.
    + split; [discriminate |]. intros H. rewrite (H y) in Hy by auto. discriminate.
    + rewrite IH. split.
      * intros H x [<- | Hx]; auto.
      * intros H x Hx. apply H. auto.
Qed.

(** [find] stops at the first element that satisfies the predicate. *)
Lemma find_first {A} (p : A -> bool) (pre post : list A) (x : A) :
  (forall y, In y pre -> p y = false) -> p x = true ->
  find p (pre ++ x :: post) = Some x.
Proof.
  induction pre as [| y pre IH]; simpl; intros Hpre Hx.
  - rewrite Hx. reflexivity.
  - rewrite (Hpre y) by auto. apply IH; auto.
Qed.

Lemma find_exists {A} (p : A -> bool) (xs : list A) :
  (exists x, In x xs /\ p x = true) -> exists y, find p xs = Some y.
Proof.
  intros (x & Hin & Hp). destruct (find p xs) as [y |] eqn:Hf; [eauto |].
  rewrite find_none in Hf. rewrite (Hf x Hin) in Hp. discriminate.
Qed.

End JsFacts.

(* ===================================================================== *)
(** ** The file system *)
(* ===================================================================== *)

Module NodeFacts.

Import Node.

Lemma is_file_false (s : FS) (p : string) :
  is_file s p = false <-> files s !! p = None.
Proof. unfold is_file. destruct (files s !! p); split; congruence. Qed.

Lemma is_file_true (s : FS) (p : string) :
  is_file s p = true <-> is_Some (files s !! p).
Proof.
  unfold is_file. destruct (files s !! p); split; try congruence; eauto.
  intros [? [=]].
Qed.

Lemma no_file_among (s : FS) (paths : list string) :
  existsb (is_file s) paths = false
  <-> forall a, In a paths -> files s !! a = None.
Proof.
  induction paths as [| b paths IH]; simpl.
  - split; [intros _ a [] | reflexivity].
  - rewrite orb_false_iff, IH, is_file_false. split.
    + intros [Hb H] a [<- | Ha]; auto.
    + intros H. split; [apply H; auto | intros a Ha; apply H; auto].
Qed.

Section Mkdir.

Variable ancestors : string -> list string.

(** [mkdir] succeeds exactly in the file systems it accepts, and then adds
    the directory and its ancestors and nothing else. *)
Lemma mkdirp_inr (p : string) (s s1 : FS) :
  mkdirp ancestors p s = inr s1
  <-> mkdir_accepts ancestors s p
      /\ s1 = mkFS (files s) (made ancestors p ∪ dirs s).
Proof.
  unfold mkdirp, mkdir_accepts.
  destruct (is_file s p) eqn:Hfile.
  { split; [discriminate |]. intros [(H & _) _].
    apply is_file_false in H. congruence. }
  apply is_file_false in Hfile.
  destruct (has_nul p) eqn:Hnul.
  { split; [discriminate |]. intros [(_ & H & _) _]. discriminate. }
  destruct (String.eqb p "") eqn:Hempty.
  { split; [discriminate |]. intros [(_ & _ & H & _) _].
    apply String.eqb_eq in Hempty. contradiction. }
  apply String.eqb_neq in Hempty.
  destruct (existsb (is_file s) (ancestors p)) eqn:Hanc.
  { split; [discriminate |]. intros [(_ & _ & _ & H) _].
    pose proof (proj2 (no_file_among s (ancestors p)) H). congruence. }
  pose proof (proj1 (no_file_among s (ancestors p)) Hanc) as Hnone. split.
  - intros [= <-]. auto.
  - intros [_ ->]. reflexivity.
Qed.

(** A refusal of [mkdir] and its cause. *)
Lemma mkdirp_inl (p : string) (s : FS) (e : error) :
  mkdirp ancestors p s = inl e ->
  e = ErrnoException "EEXIST" /\ is_Some (files s !! p)
  \/ files s !! p = None
     /\ (e = TypeError "ERR_INVALID_ARG_VALUE" /\ has_nul p = true
         \/ e = ErrnoException "ENOENT" /\ p = ""
         \/ e = ErrnoException "ENOTDIR"
            /\ exists a, In a (ancestors p) /\ is_Some (files s !! a)).
Proof.
  unfold mkdirp.
  destruct (is_file s p) eqn:Hfile.
  { intros [= <-]. left. split; [reflexivity | apply is_file_true, Hfile]. }
  apply is_file_false in Hfile. intros H. right. split; [exact Hfile |].
  revert H.
  destruct (has_nul p); [intros [= <-]; auto |].
  destruct (String.eqb p "") eqn:Hempty.
  { apply String.eqb_eq in Hempty. intros [= <-]. auto. }
  destruct (existsb (is_file s) (ancestors p)) eqn:Hanc; [| discriminate].
  intros [= <-]. right. right. split; [reflexivity |].
  apply existsb_exists in Hanc as (a & Ha & Hf).
  exists a. split; [exact Ha | apply is_file_true, Hf].
Qed.

End Mkdir.

(** What [mkdir] does at the edges: it makes the missing parent, and it
    refuses a path below a regular file, the empty path and a path with a
    NUL in it. *)
Example mkdirp_edges :
  mkdirp posix_ancestors "out/server" (mkFS ∅ ∅)
  = inr (mkFS ∅ ({[ "out/server" ]} ∪ list_to_set ["out"] ∪ ∅))
  /\ mkdirp posix_ancestors "server/out" (fs (Refusals.parent_is_file_world []))
     = inl (ErrnoException "ENOTDIR")
  /\ mkdirp posix_ancestors "" (mkFS ∅ ∅) = inl (ErrnoException "ENOENT")
  /\ mkdirp posix_ancestors Refusals.nul_path (mkFS ∅ ∅)
     = inl (TypeError "ERR_INVALID_ARG_VALUE").
Proof. repeat split; reflexivity. Qed.

(** The posix ancestors of some paths. *)
Example posix_ancestors_samples :
  posix_ancestors "server" = []
  /\ posix_ancestors "out/server" = ["out"]
  /\ posix_ancestors "/srv/site/server" = ["/"; "/srv"; "/srv/site"]
  /\ posix_ancestors "out//server/" = ["out"]
  /\ posix_ancestors "" = [].
Proof. repeat split; reflexivity. Qed.

End NodeFacts.

(* ===================================================================== *)
(** ** The azure-swa adapter *)
(* ===================================================================== *)

Module AzureSwaFacts.

Import Node AzureSwa.

Lemma is_azure_swa_entry_prefix (e : string) :
  is_azure_swa_entry e = true <-> String.prefix "entry.azure-swa" e = true.
Proof.
  unfold is_azure_swa_entry. rewrite Z.eqb_eq. apply JsFacts.indexOf_zero_prefix.
Qed.

(** The serialised descriptor, with and without a module path. *)
Lemma stringify_with_scriptFile (e : string) :
  Json.stringify (funcJsonObject (Some e)) 2
  = Some (funcJson_head +:+ Json.QuoteJSONString e +:+ funcJson_tail).
Proof. vm_compute. reflexivity. Qed.

Lemma stringify_without_scriptFile :
  Json.stringify (funcJsonObject None) 2
  = Json.stringify (Json.Obj [("bindings", bindings)]) 2.
Proof. reflexivity. Qed.

Lemma stringify_is_some (p : option string) :
  exists text, Json.stringify (funcJsonObject p) 2 = Some text.
Proof.
  destruct p as [e |].
  - rewrite stringify_with_scriptFile. eauto.
  - vm_compute. eauto.
Qed.

Ltac split5 := split; [| split; [| split; [| split]]].

Section Generate.

Variable RouteState : Type.
Variable join : string -> string -> string.
Variable ancestors : string -> list string.

#[local] Arguments Json.stringify : simpl never.

Abbreviation generate := (@AzureSwa.generate RouteState join ancestors).

(** Every run of [generate] on a set output directory, by the first
    operation the file system refuses. *)
Lemma generate_unfold (w : World RouteState) (o : GenerateOpts) (dir : string) :
  serverOutDir o = Some dir ->
  generate o w =
  let pkg := join dir "package.json" in
  let fn := join dir "function.json" in
  match mkdirp ancestors dir (fs w) with
  | inl e => (inl e, w)
  | inr s1 =>
      if decide (pkg ∈ dirs s1)
      then (inl (ErrnoException "EISDIR"), mkWorld s1 (arrays w) (routes w))
      else
        let fs1 := <[ pkg := serverPackageJsonCode ]> (files s1) in
        match Json.stringify
                (funcJsonObject
                   (Js.find is_azure_swa_entry (arrays w (outputEntries o)))) 2 with
        | None => (inl (TypeError "ERR_INVALID_ARG_TYPE"),
                   mkWorld (mkFS fs1 (dirs s1)) (arrays w) (routes w))
        | Some text =>
            if decide (fn ∈ dirs s1)
            then (inl (ErrnoException "EISDIR"),
                  mkWorld (mkFS fs1 (dirs s1)) (arrays w) (routes w))
            else (inr tt,
                  mkWorld (mkFS (<[ fn := text ]> fs1) (dirs s1))
                    (arrays w) (routes w))
        end
  end.
Proof.
  intros Hdir.
  unfold generate, bind, path_join, mkdir_recursive, writeFile, read_array,
    with_fs, ret, throw.
  rewrite Hdir. cbn.
  destruct (mkdirp ancestors dir (fs w)) as [e | s1]; [reflexivity |]. cbn.
  destruct (decide _); [destruct s1; reflexivity |]. cbn.
  destruct (Json.stringify _ _); [| reflexivity]. cbn.
  destruct (decide _); reflexivity.
Qed.

(** The world [generate] leaves when every file-system operation
    succeeds. *)
Lemma generate_fulfils (w : World RouteState) (o : GenerateOpts) (dir text : string) :
  serverOutDir o = Some dir ->
  accepts join ancestors (fs w) dir ->
  Json.stringify
    (funcJsonObject (Js.find is_azure_swa_entry (arrays w (outputEntries o)))) 2
  = Some text ->
  generate o w
  = (inr tt,
     mkWorld
       (mkFS (<[ join dir "function.json" := text ]>
                (<[ join dir "package.json" := serverPackageJsonCode ]> (files (fs w))))
             (made ancestors dir ∪ dirs (fs w)))
       (arrays w) (routes w)).
Proof.
  intros Hdir (Hmk & Hpkg & Hfun) Htext.
  rewrite (generate_unfold w o dir Hdir). cbn zeta.
  rewrite (proj2 (NodeFacts.mkdirp_inr ancestors dir (fs w) _) (conj Hmk eq_refl)).
  cbn [dirs files]. rewrite Htext.
  destruct (decide _) as [? | _]; [contradiction |].
  destruct (decide _) as [? | _]; [contradiction |]. reflexivity.
Qed.

(** Without an output directory the hook rejects before it touches
    anything. *)
Lemma generate_unset_dir (w : World RouteState) (o : GenerateOpts) :
  serverOutDir o = None ->
  generate o w = (inl (TypeError "ERR_INVALID_ARG_TYPE"), w).
Proof.
  intros Hdir. unfold generate, bind, path_join, throw. rewrite Hdir. reflexivity.
Qed.

(** C1: when some element of [outputEntries] starts with
    [entry.azure-swa], the [scriptFile] of the [function.json] that
    [generate] writes is an element of [outputEntries] that starts with
    [entry.azure-swa]: there is such an element [e] for which the text of
    the descriptor is the fixed head, the quoted [e] and the closing brace;
    a run the file system accepts fulfils and leaves that text in
    [function.json], and every run either leaves that text there or rejects
    with [function.json] untouched. *)
Theorem generate_scriptFile_matched_entry
    (w : World RouteState) (o : GenerateOpts) (dir : string) :
  serverOutDir o = Some dir ->
  (exists x, In x (arrays w (outputEntries o))
             /\ String.prefix "entry.azure-swa" x = true) ->
  exists e,
    In e (arrays w (outputEntries o))
    /\ String.prefix "entry.azure-swa" e = true
    /\ Json.stringify (funcJsonObject (Some e)) 2
       = Some (funcJson_head +:+ Json.QuoteJSONString e +:+ funcJson_tail)
    /\ (accepts join ancestors (fs w) dir ->
        exists w', generate o w = (inr tt, w')
          /\ files (fs w') !! join dir "function.json"
             = Json.stringify (funcJsonObject (Some e)) 2)
    /\ (files (fs (snd (generate o w))) !! join dir "function.json"
          = Json.stringify (funcJsonObject (Some e)) 2
        \/ (exists err, fst (generate o w) = inl err)
           /\ files (fs (snd (generate o w))) !! join dir "function.json"
              = files (fs w) !! join dir "function.json").
Proof.
  intros Hdir (x & Hin & Hx).
  destruct (JsFacts.find_exists is_azure_swa_entry (arrays w (outputEntries o)))
    as [e He].
  { exists x. split; [exact Hin |]. apply is_azure_swa_entry_prefix, Hx. }
  destruct (JsFacts.find_some _ _ _ He) as [Hine Hpe].
  apply is_azure_swa_entry_prefix in Hpe.
  exists e. split; [exact Hine |]. split; [exact Hpe |].
  split; [apply stringify_with_scriptFile |].
  split.
  - intros Hacc. eexists. split.
    + apply generate_fulfils; [exact Hdir | exact Hacc |].
      rewrite He. apply stringify_with_scriptFile.
    + cbn. rewrite stringify_with_scriptFile. apply lookup_insert_eq.
  - rewrite (generate_unfold w o dir Hdir). cbn zeta. rewrite He.
    rewrite stringify_with_scriptFile.
    destruct (mkdirp ancestors dir (fs w)) as [err | s1] eqn:Hmk;
      [right; cbn; eauto |].
    apply NodeFacts.mkdirp_inr in Hmk as [_ ->]. cbn [files dirs].
    destruct (decide _) as [Hpkg | Hpkg]; [right; cbn; eauto |].
    destruct (decide _) as [Hfn | Hfn].
    + right. cbn. split; [eauto |]. apply lookup_insert_ne. congruence.
    + left. cbn. apply lookup_insert_eq.
Qed.

(** C9: the tie-break among several prefix matches is list order: when the
    entries before [e] do not start with [entry.azure-swa] and [e] does,
    the lookup yields [e] whatever follows it, and [function.json] names
    [e] as its [scriptFile]. *)
Theorem generate_first_match_wins
    (w : World RouteState) (o : GenerateOpts) (dir : string)
    (pre post : list string) (e : string) :
  serverOutDir o = Some dir ->
  accepts join ancestors (fs w) dir ->
  arrays w (outputEntries o) = pre ++ e :: post ->
  (forall x, In x pre -> String.prefix "entry.azure-swa" x = false) ->
  String.prefix "entry.azure-swa" e = true ->
  Js.find is_azure_swa_entry (arrays w (outputEntries o)) = Some e
  /\ exists w', generate o w = (inr tt, w')
       /\ files (fs w') !! join dir "function.json"
          = Some (funcJson_head +:+ Json.QuoteJSONString e +:+ funcJson_tail).
Proof.
  intros Hdir Hacc Hentries Hpre He.
  assert (Hfind : Js.find is_azure_swa_entry (arrays w (outputEntries o)) = Some e).
  { rewrite Hentries. apply JsFacts.find_first.
    - intros x Hx. destruct (is_azure_swa_entry x) eqn:Hp; [| reflexivity].
      apply is_azure_swa_entry_prefix in Hp. rewrite (Hpre x Hx) in Hp. discriminate.
    - apply is_azure_swa_entry_prefix, He. }
  split; [exact Hfind |].
  eexists. split.
  - apply generate_fulfils; [exact Hdir | exact Hacc |].
    rewrite Hfind. apply stringify_with_scriptFile.
  - cbn. apply lookup_insert_eq.
Qed.

(** C8: when no element of [outputEntries] starts with [entry.azure-swa],
    a run the file system accepts still fulfils: both packaging files are
    written, and [function.json] holds the serialisation of the descriptor
    with its [bindings] alone; the text has no [scriptFile] in it. *)
Theorem generate_without_matching_entry
    (w : World RouteState) (o : GenerateOpts) (dir : string) :
  serverOutDir o = Some dir ->
  accepts join ancestors (fs w) dir ->
  join dir "package.json" <> join dir "function.json" ->
  (forall x, In x (arrays w (outputEntries o))
             -> String.prefix "entry.azure-swa" x = false) ->
  exists w' text,
    generate o w = (inr tt, w')
    /\ files (fs w') !! join dir "package.json" = Some serverPackageJsonCode
    /\ files (fs w') !! join dir "function.json" = Some text
    /\ Json.stringify (Json.Obj [("bindings", bindings)]) 2 = Some text
    /\ Js.indexOf text "scriptFile" = -1.
Proof.
  intros Hdir Hacc Hne Hnone.
  assert (Hfind : Js.find is_azure_swa_entry (arrays w (outputEntries o)) = None).
  { apply JsFacts.find_none. intros x Hx.
    destruct (is_azure_swa_entry x) eqn:Hp; [| reflexivity].
    apply is_azure_swa_entry_prefix in Hp. rewrite (Hnone x Hx) in Hp. discriminate. }
  destruct (stringify_is_some None) as [text Htext].
  exists (mkWorld
            (mkFS (<[ join dir "function.json" := text ]>
                     (<[ join dir "package.json" := serverPackageJsonCode ]>
                        (files (fs w))))
                  (made ancestors dir ∪ dirs (fs w)))
            (arrays w) (routes w)), text.
  split; [| split; [| split; [| split]]].
  - apply generate_fulfils; [exact Hdir | exact Hacc |]. rewrite Hfind. exact Htext.
  - cbn. rewrite lookup_insert_ne by congruence. apply lookup_insert_eq.
  - cbn. apply lookup_insert_eq.
  - rewrite <- stringify_without_scriptFile. exact Htext.
  - revert Htext. vm_compute. intros [= <-]. reflexivity.
Qed.

(** C7, with the directories [mkdir] makes: [generate] is a packaging
    step.  Whatever the outcome, the [outputEntries] array (and every
    other array) is as it was, the route-matching state is as it was and
    has no influence on the run, and every file whose content differs
    afterwards is [package.json] or [function.json] joined to
    [serverOutDir] and holds the packaging text.  Besides these two files
    the run makes directories only: [serverOutDir] itself and its
    ancestors, which lie outside [serverOutDir]. *)
Theorem generate_frame (w : World RouteState) (o : GenerateOpts) :
  arrays (snd (generate o w)) = arrays w
  /\ routes (snd (generate o w)) = routes w
  /\ (forall rs,
        generate o (mkWorld (fs w) (arrays w) rs)
        = (fst (generate o w),
           mkWorld (fs (snd (generate o w))) (arrays w) rs))
  /\ (forall p,
        files (fs (snd (generate o w))) !! p = files (fs w) !! p
        \/ exists dir, serverOutDir o = Some dir
             /\ (p = join dir "package.json"
                 /\ files (fs (snd (generate o w))) !! p = Some serverPackageJsonCode
                 \/ p = join dir "function.json"
                    /\ files (fs (snd (generate o w))) !! p
                       = Json.stringify
                           (funcJsonObject
                              (Js.find is_azure_swa_entry
                                 (arrays w (outputEntries o)))) 2))
  /\ (forall d,
        d ∈ dirs (fs (snd (generate o w))) ->
        d ∈ dirs (fs w)
        \/ serverOutDir o = Some d
        \/ exists dir, serverOutDir o = Some dir /\ In d (ancestors dir)).
Proof.
  destruct (serverOutDir o) as [dir |] eqn:Hdir.
  2: { assert (Hrs : forall w0 : World RouteState,
                 generate o w0 = (inl (TypeError "ERR_INVALID_ARG_TYPE"), w0))
         by (intros w0; apply generate_unset_dir, Hdir).
       rewrite !Hrs. cbn. split5; auto. }
  assert (Hdirs : forall d, d ∈ made ancestors dir ∪ dirs (fs w) ->
                            d ∈ dirs (fs w)
                            \/ Some dir = Some d
                            \/ exists dir0, Some dir = Some dir0
                                            /\ In d (ancestors dir0)).
  { intros d Hd. apply elem_of_union in Hd as [Hd | Hd]; [right | left; exact Hd].
    unfold made in Hd. apply elem_of_union in Hd as [Hd | Hd].
    - left. apply elem_of_singleton in Hd. congruence.
    - right. exists dir. split; [reflexivity |].
      apply elem_of_list_to_set, list_elem_of_In in Hd. exact Hd. }
  assert (Hrs : forall rs, generate o (mkWorld (fs w) (arrays w) rs) = _)
    by (intros rs; apply (generate_unfold _ o dir Hdir)).
  cbn [fs arrays routes] in Hrs.
  rewrite (generate_unfold w o dir Hdir). cbn zeta.
  destruct (stringify_is_some
              (Js.find is_azure_swa_entry (arrays w (outputEntries o))))
    as [text Htext].
  rewrite Htext in *.
  destruct (mkdirp ancestors dir (fs w)) as [err | s1] eqn:Hmk.
  { cbn. split5; auto. }
  apply NodeFacts.mkdirp_inr in Hmk as [_ ->]. cbn [files dirs] in *.
  destruct (decide (join dir "package.json" ∈ made ancestors dir ∪ dirs (fs w)))
    as [Hpkg | Hpkg].
  { cbn. split5; auto. }
  destruct (decide (join dir "function.json" ∈ made ancestors dir ∪ dirs (fs w)))
    as [Hfn | Hfn].
  - cbn. split5; auto.
    intros p. destruct (decide (p = join dir "package.json")) as [-> | Hp].
    + right. exists dir. split; [reflexivity |]. left.
      split; [reflexivity |]. apply lookup_insert_eq.
    + left. apply lookup_insert_ne. congruence.
  - cbn. split5; auto.
    intros p. destruct (decide (p = join dir "function.json")) as [-> | Hp].
    + right. exists dir. split; [reflexivity |]. right.
      split; [reflexivity |]. apply lookup_insert_eq.
    + rewrite lookup_insert_ne by congruence.
      destruct (decide (p = join dir "package.json")) as [-> | Hp'].
      * right. exists dir. split; [reflexivity |]. left.
        split; [reflexivity |]. apply lookup_insert_eq.
      * left. apply lookup_insert_ne. congruence.
Qed.

End Generate.


(** C10: the deprecated export [azureSwaAdaptor] is [azureSwaAdapter]
    itself: the same function, hence the same plugin for every environment
    and every options argument, omitted or given. *)
Theorem azureSwaAdaptor_is_azureSwaAdapter
    (RouteState : Type) (join : string -> string -> string)
    (ancestors : string -> list string)
    (StaticGenerate Ssg Plugin : Type)
    (viteAdapter :
       ViteAdapterPluginOptions RouteState StaticGenerate Ssg -> Plugin) :
  azureSwaAdaptor RouteState join ancestors StaticGenerate Ssg Plugin viteAdapter
  = azureSwaAdapter RouteState join ancestors StaticGenerate Ssg Plugin viteAdapter
  /\ forall (env_URL : option string)
            (opts : option (AzureSwaAdapterOptions StaticGenerate Ssg)),
       azureSwaAdaptor RouteState join ancestors StaticGenerate Ssg Plugin viteAdapter
         env_URL opts
       = azureSwaAdapter RouteState join ancestors StaticGenerate Ssg Plugin viteAdapter
           env_URL opts.
Proof. split; [reflexivity | intros env_URL opts; reflexivity]. Qed.

(** C7 as stated fails where the parent of [serverOutDir] is missing: on
    the output directory [out/server] in an empty file system the run
    fulfils and has made the directory [out], which was not there, is
    neither packaging file and does not lie under [out/server]. *)
Lemma generate_makes_ancestors :
  fst (generate unit plain_join posix_ancestors
         (mkGenerateOpts 0%nat (Some "out/server"))
         (sample_world ["entry.azure-swa.mjs"])) = inr tt
  /\ ("out" ∈ dirs (fs (snd (generate unit plain_join posix_ancestors
                               (mkGenerateOpts 0%nat (Some "out/server"))
                               (sample_world ["entry.azure-swa.mjs"])))))
  /\ ("out" ∉ dirs (fs (sample_world ["entry.azure-swa.mjs"])))
  /\ "out" <> plain_join "out/server" "package.json"
  /\ "out" <> plain_join "out/server" "function.json"
  /\ String.prefix "out/server" "out" = false.
Proof.
  split; [vm_compute; reflexivity |].
  split; [| split; [| split; [discriminate | split; [discriminate | reflexivity]]]].
  - apply (bool_decide_unpack _). vm_compute. exact I.
  - apply (bool_decide_unpack _). vm_compute. exact I.
Qed.

(** *** The theorems at a sample build *)

Lemma sample_accepts (entries : list string) :
  accepts plain_join posix_ancestors (fs (sample_world entries)) "server".
Proof.
  unfold accepts, mkdir_accepts, made. cbn.
  split; [split; [reflexivity | split; [reflexivity | split; [discriminate |]]] |].
  - intros a [].
  - split; intros H; apply elem_of_union in H as [H | H];
      try (apply elem_of_union in H as [H | H]);
      solve [ apply elem_of_singleton in H; discriminate H
            | apply elem_of_empty in H; exact H ].
Defined.

Lemma generate_scriptFile_matched_entry_witness :
  exists e,
    In e ["q-manifest.json"; "entry.azure-swa.mjs"; "entry.ssr.mjs"]
    /\ String.prefix "entry.azure-swa" e = true
    /\ Json.stringify (funcJsonObject (Some e)) 2
       = Some (funcJson_head +:+ Json.QuoteJSONString e +:+ funcJson_tail).
Proof.
  destruct (generate_scriptFile_matched_entry unit plain_join posix_ancestors
              (sample_world ["q-manifest.json"; "entry.azure-swa.mjs"; "entry.ssr.mjs"])
              (mkGenerateOpts 0%nat (Some "server")) "server" eq_refl)
    as (e & Hin & Hp & Htext & _).
  - exists "entry.azure-swa.mjs". split; [cbn; auto | reflexivity].
  - exists e. auto.
Defined.

Lemma generate_first_match_wins_witness :
  Js.find is_azure_swa_entry
    ["q-manifest.json"; "entry.azure-swa.mjs"; "entry.azure-swa.old.mjs"]
  = Some "entry.azure-swa.mjs"
  /\ exists w',
       generate unit plain_join posix_ancestors (mkGenerateOpts 0%nat (Some "server"))
         (sample_world
            ["q-manifest.json"; "entry.azure-swa.mjs"; "entry.azure-swa.old.mjs"])
       = (inr tt, w')
       /\ files (fs w') !! plain_join "server" "function.json"
          = Some (funcJson_head +:+ Json.QuoteJSONString "entry.azure-swa.mjs"
                  +:+ funcJson_tail).
Proof.
  apply (generate_first_match_wins unit plain_join posix_ancestors
           (sample_world
              ["q-manifest.json"; "entry.azure-swa.mjs"; "entry.azure-swa.old.mjs"])
           (mkGenerateOpts 0%nat (Some "server")) "server"
           ["q-manifest.json"] ["entry.azure-swa.old.mjs"] "entry.azure-swa.mjs").
  - reflexivity.
  - apply sample_accepts.
  - reflexivity.
  - intros x [<- | []]. reflexivity.
  - reflexivity.
Defined.

Lemma generate_without_matching_entry_witness :
  exists w' text,
    generate unit plain_join posix_ancestors (mkGenerateOpts 0%nat (Some "server"))
      (sample_world ["q-manifest.json"; "entry.ssr.mjs"])
    = (inr tt, w')
    /\ files (fs w') !! plain_join "server" "package.json"
       = Some serverPackageJsonCode
    /\ files (fs w') !! plain_join "server" "function.json" = Some text
    /\ Json.stringify (Json.Obj [("bindings", bindings)]) 2 = Some text
    /\ Js.indexOf text "scriptFile" = -1.
Proof.
  apply (generate_without_matching_entry unit plain_join posix_ancestors
           (sample_world ["q-manifest.json"; "entry.ssr.mjs"])
           (mkGenerateOpts 0%nat (Some "server")) "server").
  - reflexivity.
  - apply sample_accepts.
  - discriminate.
  - intros x [<- | [<- | []]]; reflexivity.
Defined.

End AzureSwaFacts.

(* ===================================================================== *)
(** ** The routing core: matcher and compiler *)
(* ===================================================================== *)

Module RoutingFacts.

Import Routing.

(** *** Patterns *)

Lemma matcher_eqb_eq (a b : Matcher) : matcher_eqb a b = true <-> a = b.
Proof.
  destruct a, b; simpl; try (split; [discriminate | congruence]);
    rewrite String.eqb_eq; split; congruence.
Qed.

Lemma pattern_eqb_eq (p q : list Matcher) : pattern_eqb p q = true <-> p = q.
Proof.
  revert q. induction p as [| a p IH]; intros [| b q]; simpl;
    try (split; [discriminate | congruence]); [tauto |].
  rewrite andb_true_iff, matcher_eqb_eq, IH. split.
  - intros [-> ->]. reflexivity.
  - intros [= -> ->]. auto.
Qed.

(** A pattern of rank 0 has literals only. *)
Lemma rank_zero_cons (a : Matcher) (p : list Matcher) :
  rank (a :: p) = 0%nat -> (exists t, a = Literal t) /\ rank p = 0%nat.
Proof.
  unfold rank. simpl. destruct a as [t | x | x]; simpl.
  - intros H. split; [eauto | exact H].
  - destruct (existsb is_rest p); discriminate.
  - discriminate.
Qed.

(** A static-only pattern matches its own literal path and nothing else,
    and binds no parameter. *)
Lemma match_static (p : list Matcher) :
  rank p = 0%nat ->
  forall path bs,
    match_pattern p path = Some bs <-> path = literal_path p /\ bs = [].
Proof.
  induction p as [| a p IH]; intros Hr path bs.
  - simpl. destruct path; split; try discriminate.
    + intros [= <-]. auto.
    + intros [_ ->]. reflexivity.
    + intros [[=] _].
  - destruct (rank_zero_cons a p Hr) as [[t ->] Hp]. simpl.
    destruct path as [| s path].
    + split; [discriminate | intros [[=] _]].
    + destruct (String.eqb t s) eqn:E.
      * apply String.eqb_eq in E as ->. rewrite (IH Hp). split.
        -- intros [-> ->]. auto.
        -- intros [[= ->] ->]. auto.
      * apply String.eqb_neq in E. split; [discriminate |].
        intros [[= -> _] _]. contradiction.
Qed.

Lemma literal_path_inj (p q : list Matcher) :
  rank p = 0%nat -> rank q = 0%nat -> literal_path p = literal_path q -> p = q.
Proof.
  revert q. induction p as [| a p IH]; intros q Hp Hq.
  - destruct q as [| b q]; [reflexivity |].
    destruct (rank_zero_cons b q Hq) as [[t ->] _]. discriminate.
  - destruct (rank_zero_cons a p Hp) as [[t ->] Hp'].
    destruct q as [| b q]; [discriminate |].
    destruct (rank_zero_cons b q Hq) as [[u ->] Hq']. simpl.
    intros [= -> H]. f_equal. apply IH; assumption.
Qed.

(** *** The scan *)

Lemma scan_first (pre post : list RouteEntry) (e : RouteEntry)
    (path : list string) (bs : list (string * Binding)) :
  (forall e', In e' pre -> match_pattern (pattern e') path = None) ->
  match_pattern (pattern e) path = Some bs ->
  scan (pre ++ e :: post) path = inr (e, bs).
Proof.
  induction pre as [| x pre IH]; simpl; intros Hpre He.
  - rewrite He. reflexivity.
  - rewrite (Hpre x) by auto. apply IH; auto.
Qed.

Lemma scan_found (es : list RouteEntry) (path : list string)
    (e : RouteEntry) (bs : list (string * Binding)) :
  scan es path = inr (e, bs) ->
  exists pre post,
    es = pre ++ e :: post
    /\ (forall e', In e' pre -> match_pattern (pattern e') path = None)
    /\ match_pattern (pattern e) path = Some bs.
Proof.
  induction es as [| x es IH]; simpl; [discriminate |].
  destruct (match_pattern (pattern x) path) as [bs' |] eqn:Hx.
  - intros [= -> ->]. exists [], es. split; [reflexivity |].
    split; [intros e' [] | exact Hx].
  - intros H. destruct (IH H) as (pre & post & -> & Hpre & He).
    exists (x :: pre), post. split; [reflexivity |].
    split; [| exact He]. intros e' [<- | Hin]; auto.
Qed.

(** *** Conflict detection *)

Lemma has_conflict_app (l1 l2 : list (list Matcher)) (p q : list Matcher) :
  has_conflict (l1 ++ p :: l2) = false -> In q l1 -> q <> p.
Proof.
  induction l1 as [| x l1 IH]; simpl; [intros _ [] |].
  intros H [-> | Hin].
  - apply orb_false_iff in H as [H _]. intros ->.
    assert (Hex : existsb (pattern_eqb p) (l1 ++ p :: l2) = true).
    { apply existsb_exists. exists p. split; [apply in_elt | apply pattern_eqb_eq; reflexivity]. }
    rewrite Hex in H. discriminate.
  - apply orb_false_iff in H as [_ H]. apply IH; assumption.
Qed.


Section Ranking.

(** The policy for the named layouts that the spec leaves open; the
    properties of the matcher hold whatever it is. *)
Variable override_policy :
  string -> list (list (string * LayoutNode)) -> CompileError + list LayoutNode.

Abbreviation compile := (Routing.compile override_policy).
Abbreviation walk := (Routing.walk override_policy).

Lemma compile_inv (root : SegmentNode) (m : CompiledManifest) :
  compile root = inr m ->
  exists es,
    walk [] [] root = inr es
    /\ has_conflict (List.map (fun e => normalize_pattern (pattern e)) es) = false
    /\ routeEntries m = rank_sort es.
Proof.
  unfold Routing.compile, bind_err.
  destruct (walk [] [] root) as [err | es]; [discriminate |].
  destruct (has_conflict _) eqn:Hc; [discriminate |].
  intros [= <-]. exists es. auto.
Qed.

(** C2: matching the literal path of a static-only entry of a compiled
    manifest returns that entry (with no parameter bound), so no dynamic or
    rest entry shadows it; and in general the matcher returns an entry
    exactly when it is the first one, in rank order, whose pattern matches
    the whole path. *)
Theorem static_route_never_shadowed
    (root : SegmentNode) (m : CompiledManifest) (e : RouteEntry) :
  compile root = inr m ->
  In e (routeEntries m) ->
  rank (pattern e) = 0%nat ->
  match_route m (literal_path (pattern e)) = inr (e, [])
  /\ (forall path e' bs,
        match_route m path = inr (e', bs)
        <-> exists pre post,
              routeEntries m = pre ++ e' :: post
              /\ (forall x, In x pre -> match_pattern (pattern x) path = None)
              /\ match_pattern (pattern e') path = Some bs).
Proof.
  intros Hc Hin Hr. split.
  - destruct (compile_inv root m Hc) as (es & _ & Hconf & Hm).
    unfold match_route. rewrite Hm in *. unfold rank_sort in *.
    assert (Hes : In e es).
    { repeat (apply in_app_or in Hin as [Hin | Hin]);
        apply List.filter_In in Hin as [Hin _]; exact Hin. }
    apply in_split in Hes as (l1 & l2 & ->).
    rewrite (List.filter_app (of_rank 0) l1 (e :: l2)). simpl.
    assert (He0 : of_rank 0 e = true) by (unfold of_rank; rewrite Hr; reflexivity).
    rewrite He0. rewrite <- app_assoc. simpl.
    apply scan_first.
    + intros e' He'. apply List.filter_In in He' as [He' Hr'].
      unfold of_rank in Hr'. apply Nat.eqb_eq in Hr'.
      destruct (match_pattern (pattern e') (literal_path (pattern e)))
        as [bs |] eqn:Hmatch; [| reflexivity].
      apply (match_static _ Hr') in Hmatch as [Hpath _].
      apply (literal_path_inj _ _ Hr Hr') in Hpath.
      rewrite map_app in Hconf. simpl in Hconf.
      exfalso.
      apply (has_conflict_app _ _ _ (normalize_pattern (pattern e')) Hconf).
      * apply (in_map (fun x => normalize_pattern (pattern x))) in He'. exact He'.
      * rewrite Hpath. reflexivity.
    + apply match_static; auto.
  - intros path e' bs. unfold match_route. split.
    + apply scan_found.
    + intros (pre & post & -> & Hpre & He'). apply scan_first; assumption.
Qed.

End Ranking.

Lemma static_route_never_shadowed_witness :
  match_route product_manifest ["product"; "new"] = inr (product_new_entry, []).
Proof.
  refine (proj1 (static_route_never_shadowed sample_policy product_routes
                   product_manifest product_new_entry _ _ _)).
  - reflexivity.
  - left. reflexivity.
  - reflexivity.
Defined.


(** The guide's grouped layout: [/profile] matches and is wrapped in the
    group's layout; the group's name is no part of any path. *)
Example pathless_group_adds_no_token :
  match_route (manifest_of account_routes) ["profile"]
  = inr (mkEntry [Literal "profile"] []
           "src/routes/(account)/profile/index.tsx" [layout_account], [])
  /\ match_route (manifest_of account_routes) ["account"; "profile"]
     = inl RouteNotFoundError.
Proof. split; reflexivity. Qed.

(** The guide's product route: a static sibling wins over the dynamic
    parameter, any other segment binds [skuId]. *)
Example product_routes_match :
  match_route product_manifest ["product"; "new"] = inr (product_new_entry, [])
  /\ match_route product_manifest ["product"; "999"]
     = inr (skuId_entry, [("skuId", One "999")]).
Proof. split; reflexivity. Qed.

(** *** Rest parameters *)

Lemma append_assoc (a b c : string) : (a +:+ b) +:+ c = a +:+ (b +:+ c).
Proof.
  induction a as [| x a IH]; [reflexivity |].
  change (String x ((a +:+ b) +:+ c) = String x (a +:+ (b +:+ c))).
  rewrite IH. reflexivity.
Qed.

Lemma join_segments_app (a b : list string) :
  a <> [] -> b <> [] ->
  join_segments (a ++ b) = join_segments a +:+ separator +:+ join_segments b.
Proof.
  unfold join_segments. intros Ha Hb.
  induction a as [| x a IH]; [contradiction |].
  destruct a as [| y a].
  - simpl. destruct b; [contradiction | reflexivity].
  - change (Json.join separator ((x :: y :: a) ++ b))
      with (x +:+ separator +:+ Json.join separator ((y :: a) ++ b)).
    rewrite IH by discriminate.
    change (Json.join separator (x :: y :: a))
      with (x +:+ separator +:+ Json.join separator (y :: a)).
    rewrite !append_assoc. reflexivity.
Qed.

Lemma match_rest_split (pre : list Matcher) (x : string) :
  forall path bs,
    match_pattern (pre ++ [Rest x]) path = Some bs ->
    exists consumed rest bs_pre,
      path = consumed ++ rest
      /\ match_pattern pre consumed = Some bs_pre
      /\ bs = bs_pre ++ [(x, Many rest)].
Proof.
  induction pre as [| a pre IH]; intros path bs; simpl.
  - intros [= <-]. exists [], path, []. auto.
  - destruct a as [t | y | y].
    + destruct path as [| s path]; [discriminate |].
      destruct (String.eqb t s) eqn:E; [| discriminate].
      intros H. destruct (IH _ _ H) as (c & r & bp & -> & Hc & ->).
      exists (s :: c), r, bp. simpl. rewrite E. auto.
    + destruct path as [| s path]; [discriminate |].
      destruct (match_pattern (pre ++ [Rest x]) path) as [bs' |] eqn:H; [| discriminate].
      intros [= <-]. destruct (IH _ _ H) as (c & r & bp & -> & Hc & ->).
      exists (s :: c), r, ((y, One s) :: bp). simpl. rewrite Hc. auto.
    + destruct (match_pattern (pre ++ [Rest x]) []) as [bs' |] eqn:H; [| discriminate].
      intros [= <-]. destruct (IH _ _ H) as (c & r & bp & Hnil & Hc & ->).
      symmetry in Hnil. apply app_eq_nil in Hnil as [-> ->].
      exists path, [], ((y, Many path) :: bp). simpl. rewrite Hc.
      rewrite app_nil_r. auto.
Qed.

(** A rest matcher at the end accepts the empty remainder. *)
Lemma match_rest_zero (pre : list Matcher) (x : string) :
  forall path bs,
    match_pattern pre path = Some bs ->
    match_pattern (pre ++ [Rest x]) path = Some (bs ++ [(x, Many [])]).
Proof.
  induction pre as [| a pre IH]; intros path bs; simpl.
  - destruct path; [| discriminate]. intros [= <-]. reflexivity.
  - destruct a as [t | y | y].
    + destruct path as [| s path]; [discriminate |].
      destruct (String.eqb t s); [apply IH | discriminate].
    + destruct path as [| s path]; [discriminate |].
      destruct (match_pattern pre path) as [bs' |] eqn:H; [| discriminate].
      intros [= <-]. rewrite (IH _ _ H). reflexivity.
    + destruct (match_pattern pre []) as [bs' |] eqn:H; [| discriminate].
      intros [= <-]. rewrite (IH _ _ H). reflexivity.
Qed.

(** Without a rest matcher a pattern consumes one segment per matcher. *)
Lemma match_length (p : list Matcher) :
  existsb is_rest p = false ->
  forall path bs, match_pattern p path = Some bs -> length path = length p.
Proof.
  induction p as [| a p IH]; simpl; intros Hp path bs.
  - destruct path; [reflexivity | discriminate].
  - apply orb_false_iff in Hp as [Ha Hp].
    destruct a as [t | y | y]; [| | discriminate];
      (destruct path as [| s path]; [discriminate |]); simpl.
    + destruct (String.eqb t s); [| discriminate].
      intros H. f_equal. exact (IH Hp _ _ H).
    + destruct (match_pattern p path) as [bs' |] eqn:H; [| discriminate].
      intros _. f_equal. exact (IH Hp _ _ H).
Qed.

(** C5: a match against a pattern that ends in a rest param splits the
    path into the part the preceding matchers consume and the captured
    sequence: the capture is the unconsumed trailing portion itself, so its
    text (segments joined with the separator) is that of the trailing
    portion, and the text of the path is the text of the consumed part, the
    separator and the text of the capture; the capture may be empty. *)
Theorem rest_capture_roundtrip
    (pre : list Matcher) (x : string) (path : list string)
    (bs : list (string * Binding)) :
  match_pattern (pre ++ [Rest x]) path = Some bs ->
  exists consumed rest bs_pre,
    path = consumed ++ rest
    /\ match_pattern pre consumed = Some bs_pre
    /\ bs = bs_pre ++ [(x, Many rest)]
    /\ join_segments rest = join_segments (skipn (length consumed) path)
    /\ (consumed <> [] -> rest <> [] ->
        join_segments path
        = join_segments consumed +:+ separator +:+ join_segments rest)
    /\ (existsb is_rest pre = false ->
        consumed = firstn (length pre) path /\ rest = skipn (length pre) path)
    /\ match_pattern (pre ++ [Rest x]) consumed = Some (bs_pre ++ [(x, Many [])]).
Proof.
  intros H. destruct (match_rest_split pre x path bs H) as (c & r & bp & -> & Hc & ->).
  exists c, r, bp. split; [reflexivity |]. split; [exact Hc |].
  split; [reflexivity |]. split; [| split; [| split]].
  - rewrite skipn_app, skipn_all, Nat.sub_diag. reflexivity.
  - apply join_segments_app.
  - intros Hpre. rewrite <- (match_length pre Hpre c bp Hc).
    rewrite firstn_app, firstn_all, skipn_app, skipn_all, Nat.sub_diag. simpl.
    rewrite app_nil_r. auto.
  - apply match_rest_zero, Hc.
Qed.

Lemma rest_capture_roundtrip_witness :
  exists consumed rest bs_pre,
    ["docs"; "guide"; "intro"] = consumed ++ rest
    /\ match_pattern [Literal "docs"] consumed = Some bs_pre
    /\ [("path", Many ["guide"; "intro"])] = bs_pre ++ [("path", Many rest)]
    /\ join_segments rest = join_segments (skipn (length consumed) ["docs"; "guide"; "intro"]).
Proof.
  destruct (rest_capture_roundtrip [Literal "docs"] "path" ["docs"; "guide"; "intro"]
              [("path", Many ["guide"; "intro"])] eq_refl)
    as (c & r & bp & H1 & H2 & H3 & H4 & _).
  exists c, r, bp. auto.
Defined.


(** *** Layout chains *)

Lemma default_chain_length (levels : list (list (string * LayoutNode))) :
  (length (default_chain levels) <= length levels)%nat.
Proof.
  induction levels as [| lv levels IH]; simpl; [lia |].
  rewrite length_app. unfold default_layout. destruct (assoc "" lv); simpl; lia.
Qed.

Lemma rank_sort_In (es : list RouteEntry) (e : RouteEntry) :
  In e es -> In e (rank_sort es).
Proof.
  intros He. unfold rank_sort. rewrite !in_app_iff, !List.filter_In.
  unfold of_rank, rank.
  destruct (existsb is_rest (pattern e)); [auto |].
  destruct (existsb is_param (pattern e)); auto.
Qed.

(** The lookup finds the directory that declares the name when none below
    it does. *)
Lemma nearest_declaring_found (name : string) (l : LayoutNode)
    (level : list (string * LayoutNode)) (below : list (list (string * LayoutNode))) :
  assoc name level = Some l ->
  (forall lv, In lv below -> assoc name lv = None) ->
  forall above,
    nearest_declaring name (above ++ level :: below) = Some (above, l, below).
Proof.
  intros Hl Hbelow.
  assert (Hnone : nearest_declaring name below = None).
  { induction below as [| lv below IH]; [reflexivity |]. simpl.
    rewrite IH by (intros; apply Hbelow; right; assumption).
    rewrite (Hbelow lv) by (left; reflexivity). reflexivity. }
  induction above as [| a above IH]; simpl.
  - rewrite Hnone, Hl. reflexivity.
  - rewrite IH. reflexivity.
Qed.

(** In a settled arrangement no directory below the declaring one
    declares the name. *)
Lemma settled_below (name : string) (above below : list (list (string * LayoutNode))) :
  settled name above below = true ->
  forall lv, In lv below -> assoc name lv = None.
Proof.
  destruct below as [| b below]; [intros _ lv [] |].
  unfold settled. rewrite andb_true_iff, forallb_forall. intros [H _] lv Hlv.
  specialize (H lv Hlv). destruct lv; [reflexivity | discriminate].
Qed.

Section Chains.

Variable override_policy :
  string -> list (list (string * LayoutNode)) -> CompileError + list LayoutNode.

Abbreviation compile := (Routing.compile override_policy).
Abbreviation walk := (Routing.walk override_policy).
Abbreviation walk_children := (Routing.walk_children override_policy).
Abbreviation resolve_chain := (Routing.resolve_chain override_policy).

Lemma walk_unfold (pat : list Matcher) (levels : list (list (string * LayoutNode)))
    (n : SegmentNode) :
  walk pat levels n =
  bind_err
    match handlerRef n with
    | None => inr []
    | Some h =>
        bind_err (resolve_chain (levels ++ own_level n) (layoutSelector n))
          (fun chain =>
             inr [mkEntry (extend_pattern n pat)
                    (param_names (extend_pattern n pat)) h chain])
    end (fun own =>
  bind_err (walk_children (extend_pattern n pat) (levels ++ own_level n) (children n))
    (fun below => inr (own ++ below))).
Proof. destruct n; reflexivity. Qed.

Lemma walk_children_In (pat : list Matcher) (levels : list (list (string * LayoutNode)))
    (cs : list SegmentNode) (c : SegmentNode) (es : list RouteEntry) :
  walk_children pat levels cs = inr es -> In c cs ->
  exists here, walk pat levels c = inr here /\ incl here es.
Proof.
  revert es. induction cs as [| d cs IH]; intros es; simpl; [intros _ [] |].
  destruct (walk pat levels d) as [err | here] eqn:Hd; simpl; [discriminate |].
  destruct (walk_children pat levels cs) as [err | there]; simpl; [discriminate |].
  intros [= <-] [-> | Hin].
  - exists here. split; [exact Hd | apply incl_appl, incl_refl].
  - destruct (IH there eq_refl Hin) as (h' & Hc & Hincl).
    exists h'. split; [exact Hc | apply incl_appr, Hincl].
Qed.

(** Every handler of the tree becomes an entry whose chain is resolved
    over the directory levels from the root to the handler's directory. *)
Lemma walk_leaf (n : SegmentNode) (lv : list (list (string * LayoutNode)))
    (leaf : SegmentNode) (h : string) :
  leaf_at n lv leaf h ->
  forall pat levels es,
    walk pat levels n = inr es ->
    exists e, In e es /\ entryHandler e = h
              /\ resolve_chain (levels ++ lv) (layoutSelector leaf)
                 = inr (layoutChain e).
Proof.
  induction 1 as [n h Hh | n c lv leaf h Hc Hleaf IH]; intros pat levels es;
    rewrite walk_unfold.
  - rewrite Hh.
    destruct (resolve_chain (levels ++ own_level n) (layoutSelector n))
      as [err | chain] eqn:Hr; simpl; [discriminate |].
    destruct (walk_children _ _ _) as [err | below]; simpl; [discriminate |].
    intros [= <-]. eexists. split; [left; reflexivity |]. simpl. auto.
  - destruct (match handlerRef n with None => _ | Some _ => _ end)
      as [err | own]; simpl; [discriminate |].
    destruct (walk_children _ _ _) as [err | below] eqn:Hb; simpl; [discriminate |].
    intros [= <-].
    destruct (walk_children_In _ _ _ c _ Hb Hc) as (here & Hhere & Hincl).
    destruct (IH _ _ _ Hhere) as (e & He & Heh & Hchain).
    exists e. split; [apply in_or_app; right; apply Hincl, He |].
    split; [exact Heh |]. rewrite app_assoc. exact Hchain.
Qed.

(** C6, as the spec and the guide settle it: when the leaf's own
    directory declares the requested layout, or a single ancestor declares
    it and the directories between that ancestor and the leaf declare no
    layout (the guide's arrangement), the compiled chain is the defaults of
    the directories above the declaring one followed by the named layout,
    which stands in place of that directory's default; no level
    contributes more than one layout.  In the guide's example [src/routes]
    declares both [layout.tsx] and [layout-narrow.tsx], [contact] declares
    none, and the chain compiled for [/contact] is [layout-narrow] alone,
    whatever the policy for the arrangements left open. *)
Theorem named_layout_replaces_default
    (root leaf : SegmentNode) (m : CompiledManifest) (h name : string)
    (above below : list (list (string * LayoutNode)))
    (level : list (string * LayoutNode)) (l : LayoutNode) :
  compile root = inr m ->
  leaf_at root (above ++ level :: below) leaf h ->
  layoutSelector leaf = Some name ->
  assoc name level = Some l ->
  settled name above below = true ->
  (exists e, In e (routeEntries m) /\ entryHandler e = h
             /\ layoutChain e = default_chain above ++ [l]
             /\ (length (layoutChain e) <= length (above ++ level :: below))%nat)
  /\ compile named_layout_routes = inr named_layout_manifest
  /\ match_route named_layout_manifest ["contact"] = inr (contact_entry, [])
  /\ layoutChain contact_entry = [layout_narrow].
Proof.
  intros Hc Hleaf Hsel Hl Hset. split; [| repeat split; reflexivity].
  destruct (compile_inv override_policy root m Hc) as (es & Hw & _ & Hm).
  destruct (walk_leaf _ _ _ _ Hleaf _ _ _ Hw) as (e & He & Hh & Hchain).
  exists e. rewrite Hm. split; [apply rank_sort_In, He |]. split; [exact Hh |].
  simpl in Hchain. rewrite Hsel in Hchain.
  unfold Routing.resolve_chain, named_chain in Hchain.
  rewrite (nearest_declaring_found name l level below Hl
             (settled_below name above below Hset) above), Hset in Hchain.
  injection Hchain as <-. split; [reflexivity |].
  rewrite !length_app. simpl.
  pose proof (default_chain_length above). lia.
Qed.

End Chains.

(** The guide's example: the named layout of [contact/index@narrow] comes
    from [src/routes], the parent of the leaf's directory. *)
Lemma named_layout_replaces_default_witness :
  exists e, In e (routeEntries named_layout_manifest)
            /\ entryHandler e = "src/routes/contact/index@narrow.tsx"
            /\ layoutChain e = [layout_narrow].
Proof.
  destruct (named_layout_replaces_default sample_policy named_layout_routes
              (index_leaf "index@narrow" "src/routes/contact/index@narrow.tsx"
                 (Some "narrow"))
              named_layout_manifest "src/routes/contact/index@narrow.tsx" "narrow"
              [] [[]] [("", layout_default); ("narrow", layout_narrow)] layout_narrow)
    as [(e & He & Hh & Hchain & _) _].
  - reflexivity.
  - apply (leaf_below named_layout_routes contact_dir [[]]); [left; reflexivity |].
    apply (leaf_below contact_dir
             (index_leaf "index@narrow" "src/routes/contact/index@narrow.tsx"
                (Some "narrow")) []); [left; reflexivity |].
    apply (leaf_here (index_leaf "index@narrow" "src/routes/contact/index@narrow.tsx"
                        (Some "narrow"))).
    reflexivity.
  - reflexivity.
  - reflexivity.
  - reflexivity.
  - exists e. auto.
Defined.

(** Section 4.2's arrangement: the named layout of the leaf's own
    directory replaces that directory's default, under the root's
    default, whatever the policy. *)
Example own_directory_named_layout
    (policy : string -> list (list (string * LayoutNode))
              -> CompileError + list LayoutNode) :
  Routing.compile policy own_named_layout_routes
  = inr (mkManifest
           [mkEntry [Literal "contact"] [] "src/routes/contact/index@narrow.tsx"
              [layout_default; layout_contact_narrow]]
           [layout_default; layout_contact; layout_contact_narrow]).
Proof. reflexivity. Qed.

(** The chain of the guide's example does not depend on the policy. *)
Example named_layout_routes_any_policy
    (policy : string -> list (list (string * LayoutNode))
              -> CompileError + list LayoutNode) :
  Routing.compile policy named_layout_routes = inr named_layout_manifest.
Proof. reflexivity. Qed.

(** C6 as stated fails on the guide's example.  The leaf
    [contact/index@narrow] lies in the directory [contact], below
    [src/routes]; the chain compiled for [/contact] is [layout-narrow]
    alone.  That layout is named [narrow] and is in the chain, yet it is
    not a layout of the leaf's directory: [src/routes] declares it.  And
    the route passes through two directory levels while its chain holds
    one layout, so the levels do not contribute exactly one layout
    each. *)
Lemma named_layout_not_from_leaf_directory :
  Routing.compile sample_policy named_layout_routes = inr named_layout_manifest
  /\ match_route named_layout_manifest ["contact"] = inr (contact_entry, [])
  /\ leaf_at named_layout_routes
       [layoutRefs named_layout_routes; layoutRefs contact_dir]
       (index_leaf "index@narrow" "src/routes/contact/index@narrow.tsx" (Some "narrow"))
       "src/routes/contact/index@narrow.tsx"
  /\ layoutChain contact_entry = [layout_narrow]
  /\ In ("narrow", layout_narrow) (layoutRefs named_layout_routes)
  /\ ~ (forall l, In l (layoutChain contact_entry) -> layoutName l = "narrow" ->
                  In ("narrow", l) (layoutRefs contact_dir))
  /\ length (layoutChain contact_entry)
     <> length [layoutRefs named_layout_routes; layoutRefs contact_dir].
Proof.
  split; [reflexivity |]. split; [reflexivity |]. split.
  { apply (leaf_below named_layout_routes contact_dir [[]]); [left; reflexivity |].
    apply (leaf_below contact_dir
             (index_leaf "index@narrow" "src/routes/contact/index@narrow.tsx"
                (Some "narrow")) []); [left; reflexivity |].
    apply (leaf_here (index_leaf "index@narrow" "src/routes/contact/index@narrow.tsx"
                        (Some "narrow"))).
    reflexivity. }
  split; [reflexivity |]. split; [right; left; reflexivity |]. split.
  - intros H. exact (H layout_narrow (or_introl eq_refl) eq_refl).
  - discriminate.
Qed.

End RoutingFacts.

(* ===================================================================== *)
(** ** The routing core: pipeline and composition *)
(* ===================================================================== *)

Module PipelineFacts.

Import Routing.

Section Facts.

Variable Data Source : Type.

(** Composition nests exactly the chain, in order, around the result. *)
Lemma frames_compose (chain : list LayoutNode) (r : HandlerResult Data) :
  frames (compose chain r) = chain.
Proof. induction chain as [| l chain IH]; simpl; [| rewrite IH]; reflexivity. Qed.

Lemma leaf_compose (chain : list LayoutNode) (r : HandlerResult Data) :
  leaf (compose chain r) = r.
Proof. induction chain as [| l chain IH]; simpl; [reflexivity | exact IH]. Qed.

Lemma redirect_captured (r : HandlerRun Data) :
  redirectTarget (capture r) = setRedirect r.
Proof. unfold capture. destruct (completion r); reflexivity. Qed.

(** C3: when the handler of the matched route sets a redirect target, the
    request ends with the finalized redirect: after the handler the only
    step is the redirect, no layout or leaf context is entered, nothing is
    rendered, and the redirect response carries target, status and headers
    but no payload; this holds however the handler completes. *)
Theorem redirect_skips_composition
    (m : CompiledManifest) (registry : string -> HandlerSet Data Source)
    (method : string) (path : list string) (src : Source)
    (e : RouteEntry) (ps : list (string * Binding))
    (h : Handler Data Source) (target : string) :
  match_route m path = inr (e, ps) ->
  locate method (registry (entryHandler e)) = Some h ->
  setRedirect (h (mkContext ps src)) = Some target ->
  exists status hdrs,
    handle m registry method path src
    = inr (Some ([HandlerInvoked (entryHandler e); RedirectFinalized target],
                 Redirected target status hdrs))
    /\ existsb is_composition
         ([HandlerInvoked (entryHandler e); RedirectFinalized target]
            : list (Event Data)) = false
    /\ forall trace c,
         handle m registry method path src <> inr (Some (trace, Rendered c)).
Proof.
  intros Hm Hl Hr. unfold handle, execute. rewrite Hm, Hl.
  rewrite redirect_captured, Hr.
  eexists _, _. split; [reflexivity |]. split; [reflexivity |].
  intros trace c. discriminate.
Qed.

(** C4: when the handler sets a status code, whatever it is, returns a
    payload, present or absent, and sets no redirect target, the request
    is rendered: the composition enters every layout of the route's chain
    in order and then the leaf, and the leaf context holds the payload
    and the status the handler set. *)
Theorem status_never_suppresses_rendering
    (m : CompiledManifest) (registry : string -> HandlerSet Data Source)
    (method : string) (path : list string) (src : Source)
    (e : RouteEntry) (ps : list (string * Binding))
    (h : Handler Data Source) (code : Z) (d : Payload Data) :
  match_route m path = inr (e, ps) ->
  locate method (registry (entryHandler e)) = Some h ->
  setRedirect (h (mkContext ps src)) = None ->
  setStatus (h (mkContext ps src)) = Some code ->
  completion (h (mkContext ps src)) = Returned d ->
  exists c,
    handle m registry method path src
    = inr (Some (HandlerInvoked (entryHandler e)
                   :: List.map LayoutEntered (layoutChain e) ++ [LeafEntered d],
                 Rendered c))
    /\ frames c = layoutChain e
    /\ leaf c = mkResult code None (setHeaders (h (mkContext ps src))) d None.
Proof.
  intros Hm Hl Hr Hs Hc. unfold handle, execute. rewrite Hm, Hl.
  rewrite redirect_captured, Hr.
  unfold composition_events, capture. rewrite Hc, Hs, Hr. simpl.
  eexists. split; [reflexivity |].
  split; [apply frames_compose | apply leaf_compose].
Qed.

End Facts.

(** *** The guide's product route *)

Lemma redirect_skips_composition_witness :
  exists status hdrs,
    handle product_manifest (sample_registry moved_handler) "GET"
      ["product"; "999"] tt
    = inr (Some ([HandlerInvoked "src/routes/product/[skuId]/index.tsx";
                  RedirectFinalized "/product/new"],
                 Redirected "/product/new" status hdrs)).
Proof.
  destruct (redirect_skips_composition string unit product_manifest
              (sample_registry moved_handler) "GET" ["product"; "999"] tt
              skuId_entry [("skuId", One "999")] moved_handler "/product/new"
              eq_refl eq_refl eq_refl)
    as (status & hdrs & H & _).
  exists status, hdrs. exact H.
Defined.

Lemma status_never_suppresses_rendering_witness :
  exists c,
    handle product_manifest (sample_registry product_not_found) "GET"
      ["product"; "999"] tt
    = inr (Some ([HandlerInvoked "src/routes/product/[skuId]/index.tsx";
                  LayoutEntered layout_default; LeafEntered Absent],
                 Rendered c))
    /\ frames c = [layout_default]
    /\ leaf c = mkResult 404 None [] Absent None.
Proof.
  exact (status_never_suppresses_rendering string unit product_manifest
           (sample_registry product_not_found) "GET" ["product"; "999"] tt
           skuId_entry [("skuId", One "999")] product_not_found 404 Absent
           eq_refl eq_refl eq_refl eq_refl eq_refl).
Defined.

End PipelineFacts.

(* ===================================================================== *)
(** ** The run-time functions the adapter calls *)
(* ===================================================================== *)

Module RuntimeFacts.

Import Js Json JsonRead.

Lemma append_cons (c : ascii) (a x : string) :
  String c a +:+ x = String c (a +:+ x).
Proof. reflexivity. Qed.

Lemma append_nil_inv (a x : string) : a +:+ x = "" -> a = "" /\ x = "".
Proof. destruct a; [intros H; auto | rewrite append_cons; discriminate]. Qed.

(** [String.prefix] says the string starts with the pattern. *)
Lemma prefix_split (p s : string) :
  String.prefix p s = true <-> exists r, s = p +:+ r.
Proof.
  revert s. induction p as [| a p IH]; intros s.
  - split; [intros _; exists s; reflexivity | intros _; destruct s; reflexivity].
  - destruct s as [| b s]; simpl.
    + split; [discriminate | intros [r H]; rewrite append_cons in H; discriminate].
    + destruct (ascii_dec a b) as [-> | Hne].
      * rewrite IH. split; intros [r H]; exists r.
        -- rewrite append_cons, H. reflexivity.
        -- rewrite append_cons in H. injection H as H. exact H.
      * split; [discriminate |]. intros [r H]. rewrite append_cons in H.
        injection H as H _. congruence.
Qed.

Lemma indexOf_from_spec (s pat : string) :
  forall k,
    (indexOf_from k s pat = -1 /\ forall a b, s <> a +:+ pat +:+ b)
    \/ exists a b,
         s = a +:+ pat +:+ b
         /\ indexOf_from k s pat = k + Z.of_nat (String.length a)
         /\ forall a' b', s = a' +:+ pat +:+ b' ->
                          (String.length a <= String.length a')%nat.
Proof.
  induction s as [| c rest IH]; intros k; cbn [indexOf_from].
  - destruct (String.prefix pat "") eqn:Hp.
    + right. apply prefix_split in Hp as [r Hr]. exists "", r.
      split; [exact Hr |]. split; [simpl; lia | intros; simpl; lia].
    + left. split; [reflexivity |]. intros a b H. symmetry in H.
      apply append_nil_inv in H as [_ H].
      assert (String.prefix pat "" = true) by (apply prefix_split; eauto).
      congruence.
  - destruct (String.prefix pat (String c rest)) eqn:Hp.
    + right. apply prefix_split in Hp as [r Hr]. exists "", r.
      split; [exact Hr |]. split; [simpl; lia | intros; simpl; lia].
    + assert (Hhead : forall b, String c rest <> "" +:+ pat +:+ b).
      { intros b H.
        assert (String.prefix pat (String c rest) = true)
          by (apply prefix_split; eauto).
        congruence. }
      destruct (IH (k + 1)) as [[Hres Hnone] | (a & b & Hs & Hres & Hmin)].
      * left. split; [exact Hres |]. intros [| c' a] b H.
        -- exact (Hhead b H).
        -- rewrite append_cons in H. injection H as _ H. exact (Hnone a b H).
      * right. exists (String c a), b. split; [rewrite append_cons, <- Hs; reflexivity |].
        split.
        -- rewrite Hres. cbn [String.length]. lia.
        -- intros [| c' a'] b' H.
           ++ exfalso. exact (Hhead b' H).
           ++ rewrite append_cons in H. injection H as _ H.
              specialize (Hmin a' b' H). cbn [String.length]. lia.
Qed.

(** X10: [s.indexOf(pat)] is the length of the shortest text before an
    occurrence of [pat] in [s], and [-1] exactly when [pat] does not occur
    in [s]. *)
Theorem indexOf_first_occurrence (s pat : string) :
  (indexOf s pat = -1 /\ forall a b, s <> a +:+ pat +:+ b)
  \/ exists a b,
       s = a +:+ pat +:+ b
       /\ indexOf s pat = Z.of_nat (String.length a)
       /\ forall a' b', s = a' +:+ pat +:+ b' ->
                        (String.length a <= String.length a')%nat.
Proof.
  unfold indexOf. destruct (indexOf_from_spec s pat 0) as [H | (a & b & H1 & H2 & H3)].
  - left. exact H.
  - right. exists a, b. split; [exact H1 |]. split; [rewrite H2; lia | exact H3].
Qed.

(** Reading back one quoted code unit. *)
Lemma read_quote_unit (c : ascii) (rest : string) :
  read_quoted (quote_unit c +:+ rest) = push c (read_quoted rest).
Proof.
  destruct c as [[] [] [] [] [] [] [] []]; reflexivity.
Qed.

Lemma app_string_assoc (a b c : string) : (a +:+ b) +:+ c = a +:+ (b +:+ c).
Proof.
  induction a as [| x a IH]; [reflexivity |].
  rewrite !append_cons, IH. reflexivity.
Qed.

Lemma read_quote_units (s after : string) :
  read_quoted (quote_units s +:+ String quote_char after) = Some (s, after).
Proof.
  induction s as [| c s IH].
  - reflexivity.
  - cbn [quote_units]. rewrite app_string_assoc, read_quote_unit, IH. reflexivity.
Qed.

Lemma QuoteJSONString_cancel (s t after : string) :
  QuoteJSONString s +:+ after = QuoteJSONString t +:+ after -> s = t.
Proof.
  unfold QuoteJSONString. rewrite !append_cons, !app_string_assoc, !append_cons.
  intros H. injection H as H.
  assert (Hr : read_quoted (quote_units s +:+ String quote_char ("" +:+ after))
               = read_quoted (quote_units t +:+ String quote_char ("" +:+ after)))
    by (rewrite H; reflexivity).
  rewrite !read_quote_units in Hr. congruence.
Qed.

Lemma all_units_app (p : ascii -> bool) (a b : string) :
  all_units p (a +:+ b) = all_units p a && all_units p b.
Proof.
  induction a as [| c a IH]; [reflexivity |].
  rewrite append_cons. cbn [all_units]. rewrite IH, andb_assoc. reflexivity.
Qed.

Lemma quote_unit_no_control (c : ascii) :
  all_units no_control_unit (quote_unit c) = true.
Proof. destruct c as [[] [] [] [] [] [] [] []]; reflexivity. Qed.

Lemma QuoteJSONString_no_control (s : string) :
  all_units no_control_unit (QuoteJSONString s) = true.
Proof.
  unfold QuoteJSONString. cbn [all_units]. rewrite all_units_app.
  assert (H : all_units no_control_unit (quote_units s) = true).
  { induction s as [| c s IH]; [reflexivity |].
    cbn [quote_units]. rewrite all_units_app, quote_unit_no_control, IH. reflexivity. }
  rewrite H. reflexivity.
Qed.

Lemma line_feeds_app (a b : string) :
  line_feeds (a +:+ b) = (line_feeds a + line_feeds b)%nat.
Proof.
  induction a as [| c a IH]; [reflexivity |].
  rewrite append_cons. cbn [line_feeds]. rewrite IH. lia.
Qed.

Lemma no_control_no_line_feed (s : string) :
  all_units no_control_unit s = true -> line_feeds s = 0%nat.
Proof.
  induction s as [| c s IH]; [reflexivity |].
  cbn [all_units line_feeds]. rewrite andb_true_iff. intros [Hc Hs].
  rewrite (IH Hs). unfold no_control_unit, control_unit in Hc.
  destruct (N.eqb_spec (N_of_ascii c) 10) as [E |]; [| reflexivity].
  rewrite E in Hc. discriminate.
Qed.

End RuntimeFacts.

(* ===================================================================== *)
(** ** The azure-swa adapter: outcomes, failures, composition *)
(* ===================================================================== *)

Module PackagingFacts.

Import Node AzureSwa Refusals.

(** X9: the entry test [entryName.indexOf('entry.azure-swa') === 0] holds
    exactly for the names that start with [entry.azure-swa]: whatever
    follows the marker is accepted, and a name that only contains the
    marker further in is not. *)
Theorem is_azure_swa_entry_starts_with (entryName : string) :
  is_azure_swa_entry entryName = true
  <-> exists rest, entryName = "entry.azure-swa" +:+ rest.
Proof.
  unfold is_azure_swa_entry. rewrite Z.eqb_eq, JsFacts.indexOf_zero_prefix.
  apply RuntimeFacts.prefix_split.
Qed.

(** X8: the text of [function.json] determines the module path that went
    into it: two descriptors are serialised to the same text exactly when
    they were built from the same lookup result, a found entry or none. *)
Theorem descriptor_determines_entry (a b : option string) :
  Json.stringify (funcJsonObject a) 2 = Json.stringify (funcJsonObject b) 2
  <-> a = b.
Proof.
  split; [| intros ->; reflexivity].
  destruct a as [s |], b as [t |];
    rewrite ?AzureSwaFacts.stringify_with_scriptFile.
  - intros [= H]. f_equal.
    apply (RuntimeFacts.QuoteJSONString_cancel s t funcJson_tail).
    unfold Json.QuoteJSONString. rewrite !RuntimeFacts.append_cons.
    f_equal. exact H.
  - intros H. exfalso. revert H. generalize (Json.QuoteJSONString s). intros q.
    vm_compute. destruct q; discriminate.
  - intros H. exfalso. revert H. generalize (Json.QuoteJSONString t). intros q.
    vm_compute. destruct q; discriminate.
  - reflexivity.
Qed.

(** X11: whatever the selected entry name holds (quotes, backslashes,
    line feeds and other control characters), [function.json] holds it
    between the fixed head and tail of the descriptor in a quoted form
    that leaves no code unit below 32 raw, the line feed included; the
    name can therefore add no line: the text has 26 line feeds, those of
    its layout. *)
Theorem descriptor_escapes_controls (entryName : string) :
  exists text,
    Json.stringify (funcJsonObject (Some entryName)) 2 = Some text
    /\ text = funcJson_head +:+ Json.QuoteJSONString entryName +:+ funcJson_tail
    /\ JsonRead.all_units JsonRead.no_control_unit (Json.QuoteJSONString entryName)
       = true
    /\ JsonRead.line_feeds text = 26%nat.
Proof.
  eexists. split; [apply AzureSwaFacts.stringify_with_scriptFile |].
  split; [reflexivity |].
  split; [apply RuntimeFacts.QuoteJSONString_no_control |].
  rewrite !RuntimeFacts.line_feeds_app.
  rewrite (RuntimeFacts.no_control_no_line_feed _
             (RuntimeFacts.QuoteJSONString_no_control entryName)).
  reflexivity.
Qed.

Section Outcomes.

Variable RouteState : Type.
Variable join : string -> string -> string.
Variable ancestors : string -> list string.

Abbreviation generate := (@AzureSwa.generate RouteState join ancestors).

(** The ways a run on a set output directory can end. *)
Lemma generate_cases (w : World RouteState) (o : GenerateOpts) (dir : string) :
  serverOutDir o = Some dir ->
  exists text,
    Json.stringify
      (funcJsonObject (Js.find is_azure_swa_entry (arrays w (outputEntries o)))) 2
    = Some text
    /\ generate o w =
       match mkdirp ancestors dir (fs w) with
       | inl e => (inl e, w)
       | inr _ =>
           if decide (join dir "package.json" ∈ made ancestors dir ∪ dirs (fs w))
           then (inl (ErrnoException "EISDIR"),
                 mkWorld (mkFS (files (fs w)) (made ancestors dir ∪ dirs (fs w)))
                   (arrays w) (routes w))
           else if decide (join dir "function.json"
                             ∈ made ancestors dir ∪ dirs (fs w))
           then (inl (ErrnoException "EISDIR"),
                 mkWorld
                   (mkFS (<[ join dir "package.json" := serverPackageJsonCode ]>
                            (files (fs w)))
                         (made ancestors dir ∪ dirs (fs w)))
                   (arrays w) (routes w))
           else (inr tt,
                 mkWorld
                   (mkFS (<[ join dir "function.json" := text ]>
                            (<[ join dir "package.json" := serverPackageJsonCode ]>
                               (files (fs w))))
                         (made ancestors dir ∪ dirs (fs w)))
                   (arrays w) (routes w))
       end.
Proof.
  intros Hdir.
  destruct (AzureSwaFacts.stringify_is_some
              (Js.find is_azure_swa_entry (arrays w (outputEntries o))))
    as [text Htext].
  exists text. split; [exact Htext |].
  rewrite (AzureSwaFacts.generate_unfold RouteState join ancestors w o dir Hdir).
  cbn zeta. rewrite Htext.
  destruct (mkdirp ancestors dir (fs w)) as [e | s1] eqn:Hmk; [reflexivity |].
  apply NodeFacts.mkdirp_inr in Hmk as [_ ->]. reflexivity.
Qed.

(** X1: the hook rejects with a [TypeError] in two cases only, and in both
    before it has touched anything: [serverOutDir] is unset, or its path
    holds a NUL code unit, which [mkdir] refuses (at a path that is no
    regular file, as every path with NUL is in a file system).  The data
    it hands to [writeFile] is always a string. *)
Theorem generate_type_error_cases (w : World RouteState) (o : GenerateOpts) :
  match serverOutDir o with
  | None => generate o w = (inl (TypeError "ERR_INVALID_ARG_TYPE"), w)
  | Some dir =>
      ((exists code, fst (generate o w) = inl (TypeError code))
       <-> has_nul dir = true /\ files (fs w) !! dir = None)
      /\ (has_nul dir = true -> files (fs w) !! dir = None ->
          generate o w = (inl (TypeError "ERR_INVALID_ARG_VALUE"), w))
  end.
Proof.
  destruct (serverOutDir o) as [dir |] eqn:Hdir.
  2: { apply AzureSwaFacts.generate_unset_dir, Hdir. }
  destruct (generate_cases w o dir Hdir) as (text & _ & ->).
  unfold mkdirp. destruct (is_file (fs w) dir) eqn:Hfile.
  { apply NodeFacts.is_file_true in Hfile as [old Hold]. rewrite Hold. cbn.
    split; [split; [intros [code [=]] | intros [_ [=]]] | intros _ [=]]. }
  apply NodeFacts.is_file_false in Hfile. rewrite Hfile.
  destruct (has_nul dir).
  { cbn. split; [split; eauto | reflexivity]. }
  split; [| discriminate]. split; [| intros [[=] _]].
  destruct (String.eqb dir ""); [intros [code [=]] |].
  destruct (existsb (is_file (fs w)) (ancestors dir)); [intros [code [=]] |].
  repeat (destruct (decide _)); intros [code [=]].
Qed.


(** X3: the hook does not roll back.  When [mkdir] accepts the output
    directory and the path of [function.json] is a directory, the run
    rejects with [EISDIR] at its last step, and the output directory and
    [package.json] it made before stay made; [function.json] is as it
    was. *)
Theorem generate_no_rollback
    (w : World RouteState) (o : GenerateOpts) (dir : string) :
  serverOutDir o = Some dir ->
  mkdir_accepts ancestors (fs w) dir ->
  join dir "package.json" ∉ made ancestors dir ∪ dirs (fs w) ->
  join dir "function.json" ∈ made ancestors dir ∪ dirs (fs w) ->
  fst (generate o w) = inl (ErrnoException "EISDIR")
  /\ files (fs (snd (generate o w))) !! join dir "package.json"
     = Some serverPackageJsonCode
  /\ dir ∈ dirs (fs (snd (generate o w)))
  /\ files (fs (snd (generate o w))) !! join dir "function.json"
     = files (fs w) !! join dir "function.json".
Proof.
  intros Hdir Hmk Hpkg Hfn.
  destruct (generate_cases w o dir Hdir) as (text & _ & ->).
  rewrite (proj2 (NodeFacts.mkdirp_inr ancestors dir (fs w) _) (conj Hmk eq_refl)).
  destruct (decide _); [contradiction |].
  destruct (decide _); [| contradiction]. cbn [fst snd fs files dirs].
  split; [reflexivity |]. split; [apply lookup_insert_eq |].
  split; [| apply lookup_insert_ne; congruence].
  apply elem_of_union_l. unfold made. apply elem_of_union_l, elem_of_singleton.
  reflexivity.
Qed.


(** X5: a fulfilled run can be repeated: the second run fulfils as well
    and leaves the world the first one left. *)
Theorem generate_idempotent
    (w : World RouteState) (o : GenerateOpts) (dir : string) :
  serverOutDir o = Some dir ->
  accepts join ancestors (fs w) dir ->
  generate o (snd (generate o w)) = (inr tt, snd (generate o w)).
Proof.
  intros Hdir Hacc.
  destruct (AzureSwaFacts.stringify_is_some
              (Js.find is_azure_swa_entry (arrays w (outputEntries o))))
    as [text Htext].
  rewrite (AzureSwaFacts.generate_fulfils RouteState join ancestors w o dir text
             Hdir Hacc Htext).
  cbn [snd]. destruct Hacc as ((Hfile & Hnul & Hempty & Hanc) & Hpkg & Hfn).
  assert (Hpm : forall d, d ∈ made ancestors dir -> join dir "package.json" <> d).
  { intros d Hd E. apply Hpkg. rewrite E. apply elem_of_union_l, Hd. }
  assert (Hfm : forall d, d ∈ made ancestors dir -> join dir "function.json" <> d).
  { intros d Hd E. apply Hfn. rewrite E. apply elem_of_union_l, Hd. }
  assert (Hdm : dir ∈ made ancestors dir)
    by (unfold made; apply elem_of_union_l, elem_of_singleton; reflexivity).
  assert (Ham : forall a, In a (ancestors dir) -> a ∈ made ancestors dir).
  { intros a Ha. unfold made.
    apply elem_of_union_r, elem_of_list_to_set, list_elem_of_In, Ha. }
  erewrite AzureSwaFacts.generate_fulfils; [| exact Hdir | | exact Htext].
  - cbn [fs files dirs arrays routes]. f_equal. f_equal. f_equal.
    + apply map_eq. intros p.
      destruct (decide (p = join dir "function.json")) as [-> | Hp].
      * rewrite !lookup_insert_eq. reflexivity.
      * rewrite (lookup_insert_ne _ (join dir "function.json")) by congruence.
        destruct (decide (p = join dir "package.json")) as [-> | Hp'].
        -- rewrite lookup_insert_eq.
           rewrite (lookup_insert_ne _ (join dir "function.json")) by congruence.
           rewrite lookup_insert_eq. reflexivity.
        -- rewrite (lookup_insert_ne _ (join dir "package.json")) by congruence.
           reflexivity.
    + rewrite (assoc_L (∪)), (idemp_L (∪)). reflexivity.
  - unfold accepts, mkdir_accepts. cbn [fs files dirs].
    rewrite (assoc_L (∪)), (idemp_L (∪)).
    split; [| split; assumption].
    split; [| split; [exact Hnul | split; [exact Hempty |]]].
    + rewrite !lookup_insert_ne by (apply Hpm || apply Hfm; exact Hdm). exact Hfile.
    + intros a Ha.
      rewrite !lookup_insert_ne by (apply Hpm || apply Hfm; apply Ham, Ha).
      apply Hanc, Ha.
Qed.

(** X6: no run removes anything: whatever the outcome, every file that
    was there is still there and every directory is still a directory. *)
Theorem generate_never_deletes (w : World RouteState) (o : GenerateOpts) :
  (forall p, is_Some (files (fs w) !! p) ->
             is_Some (files (fs (snd (generate o w))) !! p))
  /\ dirs (fs w) ⊆ dirs (fs (snd (generate o w))).
Proof.
  destruct (serverOutDir o) as [dir |] eqn:Hdir.
  2: { rewrite (AzureSwaFacts.generate_unset_dir RouteState join ancestors w o Hdir).
       split; [auto | reflexivity]. }
  destruct (generate_cases w o dir Hdir) as (text & _ & ->).
  destruct (mkdirp ancestors dir (fs w)); [split; [auto | reflexivity] |].
  destruct (decide _); [split; [auto | cbn; apply union_subseteq_r] |].
  destruct (decide _); (split; [| cbn; apply union_subseteq_r]); intros p Hp; cbn.
  - rewrite lookup_insert_is_Some. destruct (decide (join dir "package.json" = p)); auto.
  - rewrite !lookup_insert_is_Some.
    destruct (decide (join dir "function.json" = p)); [auto |].
    right. split; [assumption |].
    destruct (decide (join dir "package.json" = p)); auto.
Qed.

(** X7: of [outputEntries] only the first entry that passes the prefix
    test matters: two runs on the same file system and output directory
    whose arrays agree on that entry (or both have none) end alike and
    leave the same file system, whatever else the arrays hold. *)
Theorem generate_first_match_only
    (w1 w2 : World RouteState) (o1 o2 : GenerateOpts) :
  fs w1 = fs w2 ->
  serverOutDir o1 = serverOutDir o2 ->
  Js.find is_azure_swa_entry (arrays w1 (outputEntries o1))
  = Js.find is_azure_swa_entry (arrays w2 (outputEntries o2)) ->
  fst (generate o1 w1) = fst (generate o2 w2)
  /\ fs (snd (generate o1 w1)) = fs (snd (generate o2 w2)).
Proof.
  intros Hfs Hdir Hfind.
  destruct (serverOutDir o2) as [dir |] eqn:Hdir2.
  - rewrite (AzureSwaFacts.generate_unfold RouteState join ancestors w1 o1 dir Hdir).
    rewrite (AzureSwaFacts.generate_unfold RouteState join ancestors w2 o2 dir Hdir2).
    cbn zeta. rewrite Hfind, Hfs.
    destruct (mkdirp ancestors dir (fs w2)); [auto |].
    destruct (decide _); [auto |].
    destruct (Json.stringify _ _); [| auto].
    destruct (decide _); auto.
  - rewrite (AzureSwaFacts.generate_unset_dir RouteState join ancestors w1 o1 Hdir).
    rewrite (AzureSwaFacts.generate_unset_dir RouteState join ancestors w2 o2 Hdir2).
    auto.
Qed.

End Outcomes.

(** X12: what [azureSwaAdapter] hands to [viteAdapter]: the hook
    [generate] under the name [azure-swa], static output cleaned, the two
    options passed through (both unset when the argument is omitted), and
    an origin that is never empty: the [URL] of the environment when that
    is a non-empty string, the placeholder site when it is unset or
    empty. *)
Theorem azureSwaAdapter_options
    (RouteState : Type) (join : string -> string -> string)
    (ancestors : string -> list string)
    (StaticGenerate Ssg Plugin : Type)
    (viteAdapter :
       ViteAdapterPluginOptions RouteState StaticGenerate Ssg -> Plugin)
    (env_URL : option string)
    (opts : option (AzureSwaAdapterOptions StaticGenerate Ssg)) :
  exists po,
    azureSwaAdapter RouteState join ancestors StaticGenerate Ssg Plugin viteAdapter
      env_URL opts = viteAdapter po
    /\ pname _ _ _ po = "azure-swa"
    /\ cleanStaticGenerated _ _ _ po = true
    /\ pgenerate _ _ _ po = generate RouteState join ancestors
    /\ pstaticGenerate _ _ _ po
       = match opts with Some given => staticGenerate _ _ given | None => None end
    /\ pssg _ _ _ po
       = match opts with Some given => ssg _ _ given | None => None end
    /\ origin _ _ _ po <> ""
    /\ (forall u, env_URL = Some u -> u <> "" -> origin _ _ _ po = u)
    /\ (env_URL = None \/ env_URL = Some "" ->
        origin _ _ _ po = "https://yoursitename.region.2.azurestaticapps.net").
Proof.
  eexists. split; [reflexivity |]. cbn.
  split; [reflexivity |]. split; [reflexivity |]. split; [reflexivity |].
  split; [destruct opts; reflexivity |]. split; [destruct opts; reflexivity |].
  split; [| split].
  - destruct env_URL as [u |]; cbn; [| discriminate].
    destruct (String.eqb u "") eqn:E; [discriminate |].
    apply String.eqb_neq, E.
  - intros u -> Hu. cbn. apply String.eqb_neq in Hu. rewrite Hu. reflexivity.
  - intros [-> | ->]; reflexivity.
Qed.

(** *** The theorems at sample builds *)


Lemma generate_no_rollback_witness :
  fst (generate unit plain_join posix_ancestors (mkGenerateOpts 0%nat (Some "server"))
         (descriptor_is_dir_world ["entry.azure-swa.mjs"]))
  = inl (ErrnoException "EISDIR")
  /\ files (fs (snd (generate unit plain_join posix_ancestors (mkGenerateOpts 0%nat (Some "server"))
                       (descriptor_is_dir_world ["entry.azure-swa.mjs"]))))
       !! "server/package.json"
     = Some serverPackageJsonCode.
Proof.
  destruct (generate_no_rollback unit plain_join posix_ancestors
              (descriptor_is_dir_world ["entry.azure-swa.mjs"])
              (mkGenerateOpts 0%nat (Some "server")) "server" eq_refl)
    as (H1 & H2 & _).
  - unfold mkdir_accepts. cbn.
    split; [reflexivity | split; [reflexivity | split; [discriminate |]]].
    intros a [].
  - unfold made. cbn. intros H. apply elem_of_union in H as [H | H];
      [apply elem_of_union in H as [H | H] |].
    + apply elem_of_singleton in H. discriminate H.
    + apply elem_of_empty in H. exact H.
    + apply elem_of_singleton in H. discriminate H.
  - cbn. apply elem_of_union_r, elem_of_singleton. reflexivity.
  - split; [exact H1 | exact H2].
Defined.


Lemma generate_idempotent_witness :
  generate unit plain_join posix_ancestors (mkGenerateOpts 0%nat (Some "server"))
    (snd (generate unit plain_join posix_ancestors (mkGenerateOpts 0%nat (Some "server"))
            (sample_world ["entry.azure-swa.mjs"])))
  = (inr tt,
     snd (generate unit plain_join posix_ancestors (mkGenerateOpts 0%nat (Some "server"))
            (sample_world ["entry.azure-swa.mjs"]))).
Proof.
  exact (generate_idempotent unit plain_join posix_ancestors
           (sample_world ["entry.azure-swa.mjs"])
           (mkGenerateOpts 0%nat (Some "server")) "server" eq_refl
           (AzureSwaFacts.sample_accepts ["entry.azure-swa.mjs"])).
Defined.

Lemma generate_first_match_only_witness :
  fs (snd (generate unit plain_join posix_ancestors (mkGenerateOpts 0%nat (Some "server"))
             (sample_world ["q-manifest.json"; "entry.azure-swa.mjs"; "entry.ssr.mjs"])))
  = fs (snd (generate unit plain_join posix_ancestors (mkGenerateOpts 1%nat (Some "server"))
               (sample_world ["entry.azure-swa.mjs"; "entry.azure-swa.old.mjs"]))).
Proof.
  exact (proj2 (generate_first_match_only unit plain_join posix_ancestors
                  (sample_world ["q-manifest.json"; "entry.azure-swa.mjs"; "entry.ssr.mjs"])
                  (sample_world ["entry.azure-swa.mjs"; "entry.azure-swa.old.mjs"])
                  (mkGenerateOpts 0%nat (Some "server"))
                  (mkGenerateOpts 1%nat (Some "server"))
                  eq_refl eq_refl eq_refl)).
Defined.

End PackagingFacts.
